(** * The game-server pool controller of k8s/game-server-controller/app.js

    A shallow embedding of [class GameServerController] and of the two
    socket handlers ['request-server'] and ['player-disconnect'], followed by
    the properties of the controller that the design document states.

    Modelling conventions.
    - [this.servers] is a JavaScript [Map] keyed by the server id and iterated
      in insertion order: a list of records in insertion order, one record per
      key.  The code only ever stores a record under its own [id].
    - [this.players] is a [Map] that is never iterated: a [gmap].
    - Counters are JavaScript integers far below 2^53: [Z].  The one quotient
      and the one product by [0.8] are taken in exact rational arithmetic,
      with the special value NaN for 0/0 (the binary rounding of the double
      [0.8] is not modelled).
    - The Kubernetes API is the environment: every call is appended to a log,
      and an oracle indexed by the position of the call in the log tells
      whether it succeeds and what it returns.
    - Every method and handler runs to completion before the next one starts. *)

From stdpp Require Import base strings pretty list gmap.
From Stdlib Require Import ZArith QArith Lia.

Local Open Scope string_scope.
Local Open Scope list_scope.
Local Open Scope Z_scope.

(** ** JavaScript numbers, as far as [scaleServers] needs them *)

Inductive jsnum : Type :=
  | JNum (q : Q)
  | JPosInf
  | JNegInf
  | JNaN.

(** [a / n] where [n] is an array length. *)
Definition js_div (a : Z) (n : nat) : jsnum :=
  match n with
  | O => if a =? 0 then JNaN else if 0 <? a then JPosInf else JNegInf
  | S _ => JNum (a # Pos.of_nat n)
  end.

Definition Qgtb (a b : Q) : bool := negb (Qle_bool a b).

(** [x > y]; every comparison with NaN is false. *)
Definition js_gt (x y : jsnum) : bool :=
  match x, y with
  | JNaN, _ | _, JNaN => false
  | JNum a, JNum b => Qgtb a b
  | JPosInf, (JNum _ | JNegInf) => true
  | JNum _, JNegInf => true
  | _, _ => false
  end.

(** Truthiness of a string, as in [if (serverId)]. *)
Definition truthy (s : string) : bool :=
  match s with
  | EmptyString => false
  | String _ _ => true
  end.

(** ** Data *)

(** The only two values the code ever writes into [status]. *)
Inductive Status : Type := starting | running.

Definition Status_eqb (a b : Status) : bool :=
  match a, b with
  | starting, starting | running, running => true
  | _, _ => false
  end.

(** [serverInfo]; [ip] and [port] are absent on the records built by
    [createGameServer]; [createdAt] is milliseconds since the epoch. *)
Module ServerInfo.
Record t : Type := mk {
  id : string;
  ip : option string;
  port : option Z;
  players : Z;
  status : Status;
  createdAt : Z
}.
End ServerInfo.

(** One element of [pods.body.items]. *)
Record Pod : Type := {
  metadata_name : string;
  status_podIP : option string;
  status_phase : string;
  metadata_creationTimestamp : Z
}.

(** Calls made on [k8sApi] and [appsApi]. *)
Inductive Call : Type :=
  | listNamespacedPod
  | createNamespacedDeployment (name : string)
  | deleteNamespacedDeployment (name : string).

(** What a socket handler emits to the client. *)
Inductive Emit : Type :=
  | server_assigned (serverId : string) (serverIP : option string) (serverPort : option Z)
  | server_assigned_new (serverId : string) (message : string)
  | error_event (message : string).

(** The fields of the controller set once by the constructor. *)
Record Config : Type := {
  maxPlayersPerServer : Z;
  minServers : Z;
  maxServers : Z
}.

(** The environment.  The argument is the position of the call in the log. *)
Record Env : Type := {
  gen_id : nat -> string;          (* the serverId built from Date.now() and Math.random() *)
  clock : nat -> Z;                (* new Date() *)
  reply_ok : nat -> bool;          (* does the create or delete call succeed *)
  list_pods : nat -> option (list Pod)  (* the pods listed, or a failure *)
}.

(** The mutable state: the two maps of the controller and the call log. *)
Record Controller : Type := {
  servers : list ServerInfo.t;
  players : gmap string string;
  calls : list Call
}.

(** [new GameServerController()]. *)
Definition constructor : Controller :=
  {| servers := []; players := ∅; calls := [] |}.

(** ** The [Map] of servers *)

Fixpoint map_set (s : ServerInfo.t) (l : list ServerInfo.t) : list ServerInfo.t :=
  match l with
  | [] => [s]
  | x :: r =>
      if String.eqb (ServerInfo.id x) (ServerInfo.id s) then s :: r
      else x :: map_set s r
  end.

Definition map_delete (k : string) (l : list ServerInfo.t) : list ServerInfo.t :=
  List.filter (fun x => negb (String.eqb (ServerInfo.id x) k)) l.

Definition map_get (k : string) (l : list ServerInfo.t) : option ServerInfo.t :=
  List.find (fun x => String.eqb (ServerInfo.id x) k) l.

Definition add_players (d : Z) (s : ServerInfo.t) : ServerInfo.t :=
  {| ServerInfo.id := ServerInfo.id s;
     ServerInfo.ip := ServerInfo.ip s;
     ServerInfo.port := ServerInfo.port s;
     ServerInfo.players := ServerInfo.players s + d;
     ServerInfo.status := ServerInfo.status s;
     ServerInfo.createdAt := ServerInfo.createdAt s |}.

(** [server.players++] and [server.players--] on the record stored under
    key [k]: the record is shared with the map, so the entry changes.  Keys
    being unique, the record under [k] is the one the caller holds. *)
Fixpoint mutate_players (k : string) (d : Z) (l : list ServerInfo.t) : list ServerInfo.t :=
  match l with
  | [] => []
  | x :: r =>
      if String.eqb (ServerInfo.id x) k then add_players d x :: r
      else x :: mutate_players k d r
  end.

(** ** A state and exception monad for the [async] methods *)

Inductive Result (A : Type) : Type :=
  | Ok (a : A)
  | Throw.
Arguments Ok {A} a.
Arguments Throw {A}.

Definition M (A : Type) : Type := Controller -> Result A * Controller.

Global Instance M_ret : MRet M := fun A (a : A) w => (Ok a, w).

Global Instance M_bind : MBind M := fun A B (f : A -> M B) (m : M A) w =>
  match m w with
  | (Ok a, w') => f a w'
  | (Throw, w') => (Throw, w')
  end.

(** [try { m } catch (error) { logger.error(...) }] *)
Definition try_catch (m : M unit) : M unit :=
  fun w =>
    match m w with
    | (Ok a, w') => (Ok a, w')
    | (Throw, w') => (Ok tt, w')
    end.

Definition set_servers (l : list ServerInfo.t) (w : Controller) : Controller :=
  {| servers := l; players := players w; calls := calls w |}.

Definition set_players (m : gmap string string) (w : Controller) : Controller :=
  {| servers := servers w; players := m; calls := calls w |}.

(** Issue a call: append it to the log. *)
Definition issue (c : Call) (w : Controller) : Controller :=
  {| servers := servers w; players := players w; calls := calls w ++ [c] |}.

Definition is_running (s : ServerInfo.t) : bool :=
  Status_eqb (ServerInfo.status s) running.

Definition is_idle (s : ServerInfo.t) : bool :=
  ServerInfo.players s =? 0.

(** [Array.prototype.sort((a, b) => a.players - b.players)]: the sort is
    stable, so its result is the one of a stable insertion sort. *)
Fixpoint sort_insert (x : ServerInfo.t) (l : list ServerInfo.t) : list ServerInfo.t :=
  match l with
  | [] => [x]
  | y :: r =>
      if ServerInfo.players x <=? ServerInfo.players y then x :: y :: r
      else y :: sort_insert x r
  end.

Definition sort_by_players (l : list ServerInfo.t) : list ServerInfo.t :=
  List.fold_right sort_insert [] l.

Section Controller.

Variable cfg : Config.
Variable env : Env.

(** *** discoverExistingServers *)

Definition discovered (pod : Pod) : ServerInfo.t :=
  {| ServerInfo.id := metadata_name pod;
     ServerInfo.ip := status_podIP pod;
     ServerInfo.port := Some 3000;
     ServerInfo.players := 0;
     ServerInfo.status := running;
     ServerInfo.createdAt := metadata_creationTimestamp pod |}.

Definition discover_pod (l : list ServerInfo.t) (pod : Pod) : list ServerInfo.t :=
  if String.eqb (status_phase pod) "Running" then map_set (discovered pod) l else l.

Definition discoverExistingServers : M unit :=
  try_catch (fun w =>
    let k := length (calls w) in
    let w1 := issue listNamespacedPod w in
    match list_pods env k with
    | Some items => (Ok tt, set_servers (List.fold_left discover_pod items (servers w1)) w1)
    | None => (Throw, w1)
    end).

(** *** createGameServer *)

Definition createGameServer : M ServerInfo.t :=
  fun w =>
    let k := length (calls w) in
    let serverId := gen_id env k in
    let w1 := issue (createNamespacedDeployment serverId) w in
    if reply_ok env k then
      let serverInfo :=
        {| ServerInfo.id := serverId;
           ServerInfo.ip := None;
           ServerInfo.port := None;
           ServerInfo.players := 0;
           ServerInfo.status := starting;
           ServerInfo.createdAt := clock env k |} in
      (Ok serverInfo, set_servers (map_set serverInfo (servers w1)) w1)
    else (Throw, w1).

(** *** deleteGameServer *)

Definition deleteGameServer (serverId : string) : M unit :=
  try_catch (fun w =>
    let k := length (calls w) in
    let w1 := issue (deleteNamespacedDeployment serverId) w in
    if reply_ok env k then (Ok tt, set_servers (map_delete serverId (servers w1)) w1)
    else (Throw, w1)).

(** *** ensureMinimumServers *)

(** [for (let i = 0; i < serversToCreate; i++) await this.createGameServer()] *)
Fixpoint create_loop (n : nat) : M unit :=
  match n with
  | O => mret tt
  | S n' => _ ← createGameServer; create_loop n'
  end.

Definition ensureMinimumServers : M unit :=
  fun w =>
    let runningServers := List.filter is_running (servers w) in
    if Z.of_nat (length runningServers) <? minServers cfg then
      let serversToCreate := minServers cfg - Z.of_nat (length runningServers) in
      create_loop (Z.to_nat serversToCreate) w
    else (mret tt : M unit) w.

(** *** initialize, up to the two timers *)

Definition initialize : M unit :=
  discoverExistingServers;; ensureMinimumServers.

(** *** findAvailableServer *)

Definition is_available (s : ServerInfo.t) : bool :=
  is_running s && (ServerInfo.players s <? maxPlayersPerServer cfg).

Definition findAvailableServer (w : Controller) : option ServerInfo.t :=
  let availableServers := sort_by_players (List.filter is_available (servers w)) in
  List.hd_error availableServers.

(** *** scaleServers *)

Definition totalPlayers (runningServers : list ServerInfo.t) : Z :=
  List.fold_left (fun sum server => sum + ServerInfo.players server) runningServers 0.

Definition averageLoad (runningServers : list ServerInfo.t) : jsnum :=
  js_div (totalPlayers runningServers) (length runningServers).

(** [this.maxPlayersPerServer * 0.8] *)
Definition scale_up_threshold : jsnum :=
  JNum (inject_Z (maxPlayersPerServer cfg) * (4 # 5)).

Definition scale_up_fires (runningServers : list ServerInfo.t) : bool :=
  js_gt (averageLoad runningServers) scale_up_threshold
  && (Z.of_nat (length runningServers) <? maxServers cfg).

Definition scale_down_fires (runningServers : list ServerInfo.t) : bool :=
  let idleServers := List.filter is_idle runningServers in
  (1 <? Z.of_nat (length idleServers))
  && (minServers cfg <? Z.of_nat (length runningServers)).

Definition scaleServers : M unit :=
  fun w =>
    let runningServers := List.filter is_running (servers w) in
    ((if scale_up_fires runningServers
      then _ ← createGameServer; mret tt
      else mret tt);;
     (let idleServers := List.filter is_idle runningServers in
      if scale_down_fires runningServers then
        match idleServers with
        | serverToRemove :: _ => deleteGameServer (ServerInfo.id serverToRemove)
        | [] => mret tt
        end
      else mret tt)) w.

(** *** socket.on('request-server') *)

Definition request_server (playerId : string) (w : Controller) : Emit * Controller :=
  match findAvailableServer w with
  | Some availableServer =>
      (server_assigned (ServerInfo.id availableServer)
                       (ServerInfo.ip availableServer)
                       (ServerInfo.port availableServer),
       set_players (<[playerId := ServerInfo.id availableServer]> (players w))
         (set_servers (mutate_players (ServerInfo.id availableServer) 1 (servers w)) w))
  | None =>
      match createGameServer w with
      | (Ok newServer, w') =>
          (server_assigned_new (ServerInfo.id newServer)
             "New server created, please retry in a moment", w')
      | (Throw, w') => (error_event "Unable to assign server", w')
      end
  end.

(** *** socket.on('player-disconnect') *)

Definition player_disconnect (playerId : string) (w : Controller) : Controller :=
  match players w !! playerId with
  | Some serverId =>
      if truthy serverId then
        let w1 :=
          match map_get serverId (servers w) with
          | Some server =>
              if 0 <? ServerInfo.players server
              then set_servers (mutate_players serverId (-1) (servers w)) w
              else w
          | None => w
          end in
        set_players (delete playerId (players w1)) w1
      else w
  | None => w
  end.

End Controller.

(** ** Observations on the call log *)

Definition is_create (c : Call) : bool :=
  match c with
  | createNamespacedDeployment _ => true
  | _ => false
  end.

Definition delete_target (c : Call) : option string :=
  match c with
  | deleteNamespacedDeployment name => Some name
  | _ => None
  end.

(** Number of create calls issued so far. *)
Definition creates (w : Controller) : nat :=
  length (List.filter is_create (calls w)).

(** The ids whose deletion has been requested so far, oldest first. *)
Definition deletes (w : Controller) : list string :=
  omap delete_target (calls w).

(** ** One step of the controller *)

Inductive Op : Type :=
  | op_discoverExistingServers
  | op_ensureMinimumServers
  | op_scaleServers
  | op_post_servers
  | op_delete_servers (id : string)
  | op_request_server (playerId : string)
  | op_player_disconnect (playerId : string).

Definition run_op (cfg : Config) (env : Env) (o : Op) (w : Controller) : Controller :=
  match o with
  | op_discoverExistingServers => (discoverExistingServers env w).2
  | op_ensureMinimumServers => (ensureMinimumServers cfg env w).2
  | op_scaleServers => (scaleServers cfg env w).2
  | op_post_servers => (createGameServer env w).2
  | op_delete_servers id => (deleteGameServer env id w).2
  | op_request_server playerId => (request_server cfg env playerId w).2
  | op_player_disconnect playerId => player_disconnect playerId w
  end.

Definition run_ops (cfg : Config) (env : Env) (ops : list Op) (w : Controller) : Controller :=
  List.fold_left (fun w o => run_op cfg env o w) ops w.

Definition is_discovery (o : Op) : bool :=
  match o with
  | op_discoverExistingServers => true
  | _ => false
  end.


(** [s] is the first element of [l] with the least player count. *)
Definition first_least (s : ServerInfo.t) (l : list ServerInfo.t) : Prop :=
  exists l1 l2, l = l1 ++ s :: l2 /\
    Forall (fun x => ServerInfo.players s < ServerInfo.players x) l1 /\
    Forall (fun x => ServerInfo.players s <= ServerInfo.players x) l2.

(** ** Statements taken from the design document, to be compared with the code *)

(** Placement as the document words it: the selected server has the lowest
    player count among the available ones, and among those with that count
    it has the lowest [createdAt]. *)
Definition selects_oldest_on_tie (cfg : Config) (w : Controller) : Prop :=
  forall s, findAvailableServer cfg w = Some s ->
  forall x, In x (servers w) -> is_available cfg x = true ->
    ServerInfo.players s < ServerInfo.players x \/
    (ServerInfo.players s = ServerInfo.players x /\
     ServerInfo.createdAt s <= ServerInfo.createdAt x).

(** ** Concrete configurations, environments and registries *)

(** The defaults of the constructor: 100 players per server, 2 to 10 servers. *)
Definition cfg_default : Config :=
  {| maxPlayersPerServer := 100; minServers := 2; maxServers := 10 |}.

Definition pod (name : string) (phase : string) (created : Z) : Pod :=
  {| metadata_name := name;
     status_podIP := Some "10.0.0.1";
     status_phase := phase;
     metadata_creationTimestamp := created |}.

Definition two_pods : list Pod :=
  [pod "game-server-b" "Running" 2000; pod "game-server-a" "Running" 1000].

(** An environment in which every call succeeds; the pod list is given. *)
Definition env_ok (items : list Pod) : Env :=
  {| gen_id := fun k => "game-server-" +:+ pretty k;
     clock := fun k => 5000 + Z.of_nat k;
     reply_ok := fun _ => true;
     list_pods := fun _ => Some items |}.

(** An environment in which the platform refuses every call. *)
Definition env_down : Env :=
  {| gen_id := fun k => "game-server-" +:+ pretty k;
     clock := fun k => 5000 + Z.of_nat k;
     reply_ok := fun _ => false;
     list_pods := fun _ => None |}.

(** The registry after discovering [two_pods]. *)
Definition two_discovered : Controller :=
  (discoverExistingServers (env_ok two_pods) constructor).2.

(** A second request of a bound player as the document words it: refused,
    with the session table and every player count left as they were. *)
Definition rejects_second_bind (cfg : Config) (env : Env) (p : string) (w : Controller) : Prop :=
  is_Some (players w !! p) ->
  let (e, w') := request_server cfg env p w in
  (exists message, e = error_event message) /\
  players w' = players w /\
  List.map ServerInfo.players (servers w') = List.map ServerInfo.players (servers w).

(** A request that finds no server with room as the document words it: the
    caller is told so and nothing is provisioned. *)
Definition no_capacity_without_provisioning
    (cfg : Config) (env : Env) (p : string) (w : Controller) : Prop :=
  findAvailableServer cfg w = None ->
  let (e, w') := request_server cfg env p w in
  (forall serverId ip port, e <> server_assigned serverId ip port) /\
  (forall serverId message, e <> server_assigned_new serverId message) /\
  calls w' = calls w.

(** [two_discovered] after a first placement of the player ["alice"]. *)
Definition alice_placed : Controller :=
  (request_server cfg_default (env_ok two_pods) "alice" two_discovered).2.

(** ** The invariant of the registry *)

Definition within_capacity (cfg : Config) (s : ServerInfo.t) : Prop :=
  0 <= ServerInfo.players s <= maxPlayersPerServer cfg.

(** One record per key, and every count between zero and the capacity. *)
Definition registry_ok (cfg : Config) (l : list ServerInfo.t) : Prop :=
  List.NoDup (List.map ServerInfo.id l) /\ Forall (within_capacity cfg) l.

(** The scale-down rule as the document words it: a tick requests the
    deletion of the first idle running server when more than one running
    server is idle and more than [minServers] servers are running, and
    requests no deletion otherwise. *)
Definition scale_down_as_documented (cfg : Config) (env : Env) (w : Controller) : Prop :=
  let rs := List.filter is_running (servers w) in
  let idle := List.filter is_idle rs in
  let w' := (scaleServers cfg env w).2 in
  ((1 < length idle)%nat /\ minServers cfg < Z.of_nat (length rs) ->
     exists s rest, idle = s :: rest /\ deletes w' = deletes w ++ [ServerInfo.id s]) /\
  (~ ((1 < length idle)%nat /\ minServers cfg < Z.of_nat (length rs)) ->
     deletes w' = deletes w).

(** Servers of one player each, and a pool allowed to grow to twenty. *)
Definition cfg_small : Config :=
  {| maxPlayersPerServer := 1; minServers := 2; maxServers := 20 |}.

Definition eleven_pods : list Pod :=
  List.map (fun k => pod ("gs-" +:+ pretty k) "Running" (Z.of_nat k)) (seq 0 11).

(** The platform lists eleven running pods and then refuses every call. *)
Definition env_create_fails : Env :=
  {| gen_id := fun k => "game-server-" +:+ pretty k;
     clock := fun k => 5000 + Z.of_nat k;
     reply_ok := fun _ => false;
     list_pods := fun _ => Some eleven_pods |}.

(** Eleven servers discovered, eleven players placed one per server, and the
    first two players gone: nine servers full, two idle. *)
Definition nine_full_two_idle : Controller :=
  run_ops cfg_small env_create_fails
    ([op_discoverExistingServers]
     ++ List.map (fun k => op_request_server ("p" +:+ pretty k)) (seq 0 11)
     ++ [op_player_disconnect "p0"; op_player_disconnect "p1"])
    constructor.

Definition pod_is_running (pod : Pod) : bool :=
  String.eqb (status_phase pod) "Running".

(** Startup as the document words it: the number of create calls issued by
    [initialize] is the gap between [minServers] and the number of running
    servers discovered. *)
Definition startup_as_documented (cfg : Config) (env : Env) : Prop :=
  let wd := (discoverExistingServers env constructor).2 in
  let n := length (List.filter is_running (servers wd)) in
  creates (initialize cfg env constructor).2 =
    Z.to_nat (Z.max 0 (minServers cfg - Z.of_nat n)).

(** The average load as the document words it: the divisor is
    [max(1, |runningInstances|)]. *)
Definition averageLoad_documented (runningServers : list ServerInfo.t) : jsnum :=
  JNum (totalPlayers runningServers # Pos.of_nat (Nat.max 1 (length runningServers))).

Definition average_as_documented (w : Controller) : Prop :=
  let rs := List.filter is_running (servers w) in
  averageLoad rs = averageLoad_documented rs.

(** What a release may do to one record: nothing, or take one player away
    from a record that has at least one. *)
Definition released (s s' : ServerInfo.t) : Prop :=
  s' = s \/ (0 < ServerInfo.players s /\ s' = add_players (-1) s).

(** No record under the id [k] is running. *)
Definition no_running_record (k : string) (l : list ServerInfo.t) : Prop :=
  Forall (fun s => ServerInfo.id s = k -> ServerInfo.status s <> running) l.

(** Two running servers holding [a] and [b] players. *)
Definition pair_with (a b : Z) : Controller :=
  {| servers :=
       [ServerInfo.mk "game-server-b" (Some "10.0.0.1") (Some 3000) a running 2000;
        ServerInfo.mk "game-server-a" (Some "10.0.0.1") (Some 3000) b running 1000];
     players := ∅;
     calls := [] |}.

Definition three_pods : list Pod :=
  [pod "gs-0" "Running" 1000; pod "gs-1" "Running" 2000; pod "gs-2" "Running" 3000].

(** Three idle servers, as discovered. *)
Definition three_idle : Controller :=
  (discoverExistingServers (env_ok three_pods) constructor).2.

(** A day in the life of the controller. *)
Definition sample_ops : list Op :=
  [op_discoverExistingServers; op_ensureMinimumServers;
   op_request_server "alice"; op_request_server "bob"; op_scaleServers;
   op_player_disconnect "alice"; op_post_servers; op_delete_servers "game-server-a";
   op_scaleServers].

(** The same without discovery. *)
Definition sample_ops_after_startup : list Op :=
  [op_ensureMinimumServers;
   op_request_server "alice"; op_request_server "bob"; op_scaleServers;
   op_player_disconnect "alice"; op_post_servers; op_delete_servers "game-server-a";
   op_scaleServers].

(** ** The metrics, the timers and the HTTP routes *)

(** [gameServerMetrics]: the two gauges and, of the counter
    [serverRequests], the two label sets the code ever increments,
    [{method: 'POST', status: 'success'}] and [{method: 'POST', status: 'error'}]. *)
Record Metrics : Type := {
  activeServers : Z;
  playerConnections : Z;
  serverRequests_POST_success : nat;
  serverRequests_POST_error : nat
}.

(** The process: the controller and its metrics. *)
Record App : Type := {
  controller : Controller;
  gameServerMetrics : Metrics
}.

(** The process as the module leaves it once loaded. *)
Definition new_app : App :=
  {| controller := constructor;
     gameServerMetrics :=
       {| activeServers := 0; playerConnections := 0;
          serverRequests_POST_success := 0; serverRequests_POST_error := 0 |} |}.

Definition set_controller (w : Controller) (a : App) : App :=
  {| controller := w; gameServerMetrics := gameServerMetrics a |}.

(** What a route answers. *)
Inductive Response : Type :=
  | res_servers (servers : list ServerInfo.t) (count : nat)
  | res_created (server : ServerInfo.t)
  | res_deleted (message : string)
  | res_status_500.

(** *** updateMetrics *)

Definition updateMetrics (a : App) : App :=
  let runningServers := List.filter is_running (servers (controller a)) in
  let totalPlayers :=
    List.fold_left (fun sum server => sum + ServerInfo.players server) runningServers 0 in
  {| controller := controller a;
     gameServerMetrics :=
       {| activeServers := Z.of_nat (length runningServers);
          playerConnections := totalPlayers;
          serverRequests_POST_success := serverRequests_POST_success (gameServerMetrics a);
          serverRequests_POST_error := serverRequests_POST_error (gameServerMetrics a) |} |}.

(** *** The callback of [startHealthChecks]:
    [await this.scaleServers(); this.updateMetrics();] *)

Definition health_check (cfg : Config) (env : Env) (a : App) : Result unit * App :=
  match scaleServers cfg env (controller a) with
  | (Ok _, w) => (Ok tt, updateMetrics (set_controller w a))
  | (Throw, w) => (Throw, set_controller w a)
  end.

(** *** app.get('/servers') *)

Definition get_servers (a : App) : Response :=
  let servers := servers (controller a) in
  res_servers servers (length servers).

(** *** app.post('/servers') *)

Definition inc_POST_success (m : Metrics) : Metrics :=
  {| activeServers := activeServers m;
     playerConnections := playerConnections m;
     serverRequests_POST_success := S (serverRequests_POST_success m);
     serverRequests_POST_error := serverRequests_POST_error m |}.

Definition inc_POST_error (m : Metrics) : Metrics :=
  {| activeServers := activeServers m;
     playerConnections := playerConnections m;
     serverRequests_POST_success := serverRequests_POST_success m;
     serverRequests_POST_error := S (serverRequests_POST_error m) |}.

Definition post_servers (env : Env) (a : App) : Response * App :=
  let m := inc_POST_success (gameServerMetrics a) in
  match createGameServer env (controller a) with
  | (Ok server, w) => (res_created server, {| controller := w; gameServerMetrics := m |})
  | (Throw, w) =>
      (res_status_500, {| controller := w; gameServerMetrics := inc_POST_error m |})
  end.

(** *** app.delete('/servers/:id') *)

Definition delete_servers (env : Env) (id : string) (a : App) : Response * App :=
  match deleteGameServer env id (controller a) with
  | (Ok _, w) => (res_deleted ("Server " +:+ id +:+ " deleted"), set_controller w a)
  | (Throw, w) => (res_status_500, set_controller w a)
  end.

(** *** Everything that can happen to the process *)

Inductive Event : Type :=
  | ev_initialize
  | ev_health_check
  | ev_metrics_collection
  | ev_get_servers
  | ev_post_servers
  | ev_delete_servers (id : string)
  | ev_request_server (playerId : string)
  | ev_player_disconnect (playerId : string).

Definition run_event (cfg : Config) (env : Env) (e : Event) (a : App) : App :=
  match e with
  | ev_initialize => set_controller (initialize cfg env (controller a)).2 a
  | ev_health_check => (health_check cfg env a).2
  | ev_metrics_collection => updateMetrics a
  | ev_get_servers => a
  | ev_post_servers => (post_servers env a).2
  | ev_delete_servers id => (delete_servers env id a).2
  | ev_request_server playerId =>
      set_controller (request_server cfg env playerId (controller a)).2 a
  | ev_player_disconnect playerId =>
      set_controller (player_disconnect playerId (controller a)) a
  end.

Definition run_events (cfg : Config) (env : Env) (es : list Event) (a : App) : App :=
  List.fold_left (fun a e => run_event cfg env e a) es a.

Definition is_post (e : Event) : bool :=
  match e with
  | ev_post_servers => true
  | _ => false
  end.

(** ** Further predicates on the registry *)

(** One record per key, no negative count, and no player on a server that
    is still starting. *)
Definition record_sound (s : ServerInfo.t) : Prop :=
  0 <= ServerInfo.players s /\
  (ServerInfo.status s = starting -> ServerInfo.players s = 0).

Definition registry_sound (l : list ServerInfo.t) : Prop :=
  List.NoDup (List.map ServerInfo.id l) /\ Forall record_sound l.

(** The ids of the running servers, in insertion order. *)
Definition running_ids (w : Controller) : list string :=
  List.map ServerInfo.id (List.filter is_running (servers w)).

(** The player counts of any two running servers differ by at most one. *)
Definition balanced (l : list ServerInfo.t) : Prop :=
  forall a b, In a l -> In b l -> is_running a = true -> is_running b = true ->
    ServerInfo.players a <= ServerInfo.players b + 1.

Definition evenly_loaded (l : list ServerInfo.t) : Prop :=
  List.NoDup (List.map ServerInfo.id l) /\ balanced l.

Definition keeps_balance (o : Op) : bool :=
  match o with
  | op_discoverExistingServers | op_player_disconnect _ => false
  | _ => true
  end.

(** The calls one tick adds to the log, read off the registry it starts
    from and the reply to its create call. *)
Definition tick_calls (cfg : Config) (env : Env) (w : Controller) : list Call :=
  let rs := List.filter is_running (servers w) in
  let k := length (calls w) in
  (if scale_up_fires cfg rs then [createNamespacedDeployment (gen_id env k)] else [])
  ++ (if scale_up_fires cfg rs && negb (reply_ok env k) then []
      else if scale_down_fires cfg rs then
        match List.filter is_idle rs with
        | s :: _ => [deleteNamespacedDeployment (ServerInfo.id s)]
        | [] => []
        end
      else []).

(** Two servers, a Pending pod between them. *)
Definition mixed_pods : list Pod :=
  [pod "gs-0" "Running" 1000; pod "gs-1" "Pending" 2000; pod "gs-2" "Running" 3000].

Definition sample_events : list Event :=
  [ev_initialize; ev_post_servers; ev_request_server "alice"; ev_health_check;
   ev_post_servers; ev_get_servers; ev_delete_servers "gs-0";
   ev_player_disconnect "alice"; ev_metrics_collection].

(** The platform accepts the first three calls and refuses the others. *)
Definition env_flaky : Env :=
  {| gen_id := fun k => "game-server-" +:+ pretty k;
     clock := fun k => 5000 + Z.of_nat k;
     reply_ok := fun k => (k <? 3)%nat;
     list_pods := fun _ => Some two_pods |}.
(** ** Basic facts on the log *)

Section Log.

Variable cfg : Config.
Variable env : Env.

Lemma creates_issue_create w name :
  creates (issue (createNamespacedDeployment name) w) = S (creates w).
Proof.
  unfold creates, issue; simpl.
  rewrite List.filter_app, length_app; simpl. lia.
Qed.

Lemma creates_issue_delete w name :
  creates (issue (deleteNamespacedDeployment name) w) = creates w.
Proof.
  unfold creates, issue; simpl.
  rewrite List.filter_app, length_app; simpl. lia.
Qed.

Lemma deletes_issue_create w name :
  deletes (issue (createNamespacedDeployment name) w) = deletes w.
Proof.
  unfold deletes, issue; simpl.
  rewrite omap_app; simpl. apply app_nil_r.
Qed.

Lemma deletes_issue_delete w name :
  deletes (issue (deleteNamespacedDeployment name) w) = deletes w ++ [name].
Proof.
  unfold deletes, issue; simpl.
  now rewrite omap_app.
Qed.

Lemma createGameServer_spec w :
  let k := length (calls w) in
  let w1 := issue (createNamespacedDeployment (gen_id env k)) w in
  createGameServer env w =
    if reply_ok env k then
      let s := ServerInfo.mk (gen_id env k) None None 0 starting (clock env k) in
      (Ok s, set_servers (map_set s (servers w)) w1)
    else (Throw, w1).
Proof. reflexivity. Qed.

Lemma createGameServer_creates w :
  creates (createGameServer env w).2 = S (creates w).
Proof.
  rewrite createGameServer_spec; simpl.
  destruct (reply_ok env _); simpl; apply creates_issue_create.
Qed.

Lemma createGameServer_deletes w :
  deletes (createGameServer env w).2 = deletes w.
Proof.
  rewrite createGameServer_spec; simpl.
  destruct (reply_ok env _); simpl; apply deletes_issue_create.
Qed.

Lemma createGameServer_players w :
  players (createGameServer env w).2 = players w.
Proof.
  rewrite createGameServer_spec; simpl.
  now destruct (reply_ok env _).
Qed.

Lemma deleteGameServer_spec id w :
  let k := length (calls w) in
  let w1 := issue (deleteNamespacedDeployment id) w in
  deleteGameServer env id w =
    (Ok tt, if reply_ok env k then set_servers (map_delete id (servers w)) w1 else w1).
Proof.
  unfold deleteGameServer, try_catch; simpl.
  now destruct (reply_ok env _).
Qed.

Lemma deleteGameServer_creates id w :
  creates (deleteGameServer env id w).2 = creates w.
Proof.
  rewrite deleteGameServer_spec; simpl.
  destruct (reply_ok env _); simpl; apply creates_issue_delete.
Qed.

Lemma deleteGameServer_deletes id w :
  deletes (deleteGameServer env id w).2 = deletes w ++ [id].
Proof.
  rewrite deleteGameServer_spec; simpl.
  destruct (reply_ok env _); simpl; apply deletes_issue_delete.
Qed.

(** The tick, by cases on the two rules and on the reply to the create. *)
Lemma scaleServers_spec w :
  let rs := List.filter is_running (servers w) in
  let down (w0 : Controller) : Result unit * Controller :=
    if scale_down_fires cfg rs then
      match List.filter is_idle rs with
      | s :: _ => deleteGameServer env (ServerInfo.id s) w0
      | [] => (Ok tt, w0)
      end
    else (Ok tt, w0) in
  scaleServers cfg env w =
    if scale_up_fires cfg rs then
      match createGameServer env w with
      | (Ok _, w1) => down w1
      | (Throw, w1) => (Throw, w1)
      end
    else down w.
Proof.
  unfold scaleServers; simpl.
  destruct (scale_up_fires cfg _); unfold mbind, M_bind, mret, M_ret; simpl.
  - destruct (createGameServer env w) as [[s|] w1]; simpl; [|reflexivity].
    destruct (scale_down_fires cfg _); [|reflexivity].
    now destruct (List.filter is_idle _).
  - destruct (scale_down_fires cfg _); [|reflexivity].
    now destruct (List.filter is_idle _).
Qed.

End Log.

(** ** The scale-up rule *)

Section ScaleUp.

Variable cfg : Config.
Variable env : Env.

Lemma js_div_pos a n : n <> O -> js_div a n = JNum (a # Pos.of_nat n).
Proof. destruct n; [congruence | reflexivity]. Qed.

(** The comparison [averageLoad > maxPlayersPerServer * 0.8] in integers. *)
Lemma average_above_threshold_iff (rs : list ServerInfo.t) :
  js_gt (averageLoad rs) (scale_up_threshold cfg) = true <->
  rs <> [] /\
  4 * maxPlayersPerServer cfg * Z.of_nat (length rs) < 5 * totalPlayers rs.
Proof.
  unfold averageLoad, scale_up_threshold.
  destruct rs as [|s rs'].
  - simpl. split; [discriminate | intros [H _]; now elim H].
  - remember (s :: rs') as rs eqn:E.
    assert (Hn : length rs = S (length rs')) by (subst; reflexivity).
    rewrite js_div_pos by lia.
    unfold js_gt, Qgtb.
    rewrite negb_true_iff, <- not_true_iff_false, Qle_bool_iff.
    unfold Qle; simpl.
    assert (Hp : Z.pos (Pos.of_nat (length rs)) = Z.of_nat (length rs)).
    { rewrite Hn. rewrite <- Pos.of_nat_succ. lia. }
    rewrite Hp.
    split.
    + intros H. split; [subst; discriminate | lia].
    + intros [_ H]. lia.
Qed.

Lemma scaleServers_creates w :
  let rs := List.filter is_running (servers w) in
  creates (scaleServers cfg env w).2 =
    (creates w + (if scale_up_fires cfg rs then 1 else 0))%nat.
Proof.
  simpl. rewrite scaleServers_spec; simpl.
  set (rs := List.filter is_running (servers w)).
  assert (Hdown : forall w0,
    creates (if scale_down_fires cfg rs then
               match List.filter is_idle rs with
               | s :: _ => deleteGameServer env (ServerInfo.id s) w0
               | [] => (Ok tt, w0)
               end
             else (Ok tt, w0)).2 = creates w0).
  { intros w0. destruct (scale_down_fires cfg rs); [|reflexivity].
    destruct (List.filter is_idle rs); [reflexivity|].
    apply deleteGameServer_creates. }
  destruct (scale_up_fires cfg rs).
  - pose proof (createGameServer_creates env w) as Hc.
    destruct (createGameServer env w) as [[s|] w1]; simpl in *.
    + rewrite Hdown. lia.
    + lia.
  - rewrite Hdown. lia.
Qed.

(** C1.  One tick of [scaleServers] issues a create call exactly when
    [averageLoad > maxPlayersPerServer * 0.8] and the number of running
    servers is below [maxServers], and then it issues exactly one; with two
    running servers of capacity 100, 85 players in total lead to no create
    and 170 players (the pool being below [maxServers]) to exactly one. *)
Theorem scale_up_rule (w : Controller) :
  let rs := List.filter is_running (servers w) in
  let w' := (scaleServers cfg env w).2 in
  (creates w' = S (creates w) <->
     js_gt (averageLoad rs) (scale_up_threshold cfg) = true /\
     Z.of_nat (length rs) < maxServers cfg)
  /\ (creates w' = creates w \/ creates w' = S (creates w))
  /\ (maxPlayersPerServer cfg = 100 -> length rs = 2%nat -> totalPlayers rs = 85 ->
      creates w' = creates w)
  /\ (maxPlayersPerServer cfg = 100 -> length rs = 2%nat -> totalPlayers rs = 170 ->
      2 < maxServers cfg ->
      creates w' = S (creates w)).
Proof.
  intros rs w'.
  assert (Hc : creates w' = (creates w + (if scale_up_fires cfg rs then 1 else 0))%nat)
    by apply scaleServers_creates.
  assert (Hf : scale_up_fires cfg rs = true <->
               js_gt (averageLoad rs) (scale_up_threshold cfg) = true /\
               Z.of_nat (length rs) < maxServers cfg).
  { unfold scale_up_fires. rewrite andb_true_iff, Z.ltb_lt. reflexivity. }
  split; [split | split; [| split]].
  - intros H. apply Hf. destruct (scale_up_fires cfg rs); [reflexivity | lia].
  - intros H. apply Hf in H. rewrite H in Hc. lia.
  - destruct (scale_up_fires cfg rs); [right | left]; lia.
  - intros Hcap Hlen Htot.
    destruct (scale_up_fires cfg rs); [|lia].
    destruct Hf as [Hf _]. destruct (Hf eq_refl) as [E _].
    apply average_above_threshold_iff in E. lia.
  - intros Hcap Hlen Htot Hmax.
    assert (E : scale_up_fires cfg rs = true).
    { apply Hf. split; [|lia].
      apply average_above_threshold_iff. split; [|lia].
      intros ->. discriminate. }
    rewrite E in Hc. lia.
Qed.

End ScaleUp.

(** ** Placement: [findAvailableServer] *)

Section Placement.

Variable cfg : Config.

Lemma hd_sort_insert x l :
  List.hd_error (sort_insert x l) =
    match List.hd_error l with
    | None => Some x
    | Some y => if ServerInfo.players x <=? ServerInfo.players y then Some x else Some y
    end.
Proof.
  destruct l as [|y r]; simpl; [reflexivity|].
  now destruct (ServerInfo.players x <=? ServerInfo.players y).
Qed.

Lemma hd_sort_by_players l :
  match List.hd_error (sort_by_players l) with
  | None => l = []
  | Some s => first_least s l
  end.
Proof.
  induction l as [|x l IH]; simpl; [reflexivity|].
  rewrite hd_sort_insert.
  destruct (List.hd_error (sort_by_players l)) as [y|].
  - destruct IH as (l1 & l2 & -> & H1 & H2).
    destruct (Z.leb_spec (ServerInfo.players x) (ServerInfo.players y)) as [Hle|Hgt].
    + exists [], (l1 ++ y :: l2). split; [reflexivity|]. split; [constructor|].
      apply Forall_app. split.
      * eapply Forall_impl; [exact H1|]. simpl. intros; lia.
      * constructor; [lia|]. eapply Forall_impl; [exact H2|]. simpl. intros; lia.
    + exists (x :: l1), l2. split; [reflexivity|]. split; [|exact H2].
      constructor; [lia | exact H1].
  - subst l. exists [], []. repeat split; constructor.
Qed.

Lemma filter_split (f : ServerInfo.t -> bool) l a1 s a2 :
  List.filter f l = a1 ++ s :: a2 ->
  exists l1 l2, l = l1 ++ s :: l2 /\ List.filter f l1 = a1 /\
                List.filter f l2 = a2 /\ f s = true.
Proof.
  revert a1. induction l as [|x l IH]; intros a1 H; simpl in H.
  - now destruct a1.
  - destruct (f x) eqn:Fx.
    + destruct a1 as [|a a1]; simpl in H.
      * injection H as Hx Hl. subst x a2. exists [], l. auto.
      * injection H as Hx H. subst a.
        destruct (IH _ H) as (l1 & l2 & -> & <- & <- & Fs).
        exists (x :: l1), l2. simpl. rewrite Fx. auto.
    + destruct (IH _ H) as (l1 & l2 & -> & <- & <- & Fs).
      exists (x :: l1), l2. simpl. rewrite Fx. auto.
Qed.

Lemma Forall_filter_inv (P : ServerInfo.t -> Prop) (f : ServerInfo.t -> bool) l :
  Forall P (List.filter f l) -> Forall (fun x => f x = true -> P x) l.
Proof.
  induction l as [|x l IH]; simpl; intros H; [constructor|].
  destruct (f x) eqn:Fx.
  - inversion H; subst. constructor; auto.
  - constructor; [congruence | auto].
Qed.

(** What [findAvailableServer] returns, in terms of the registry. *)
Lemma findAvailableServer_spec w :
  match findAvailableServer cfg w with
  | Some s =>
      exists l1 l2, servers w = l1 ++ s :: l2 /\ is_available cfg s = true /\
        Forall (fun x => is_available cfg x = true ->
                         ServerInfo.players s < ServerInfo.players x) l1 /\
        Forall (fun x => is_available cfg x = true ->
                         ServerInfo.players s <= ServerInfo.players x) l2
  | None => Forall (fun x => is_available cfg x = false) (servers w)
  end.
Proof.
  unfold findAvailableServer.
  pose proof (hd_sort_by_players (List.filter (is_available cfg) (servers w))) as H.
  destruct (List.hd_error _) as [s|].
  - destruct H as (a1 & a2 & E & H1 & H2).
    destruct (filter_split _ _ _ _ _ E) as (l1 & l2 & -> & <- & <- & Fs).
    exists l1, l2. repeat split; auto using Forall_filter_inv.
  - clear -H. induction (servers w) as [|x l IH]; [constructor|].
    simpl in H. destruct (is_available cfg x) eqn:Fx; [discriminate|].
    constructor; auto.
Qed.

(** C2, amended.  When some server is available, [findAvailableServer]
    returns a running server with room whose player count is the lowest
    among the available ones; among the available servers with that count
    it is the first in the insertion order of the registry. *)
Theorem placement_least_loaded_first_inserted (w : Controller) :
  Exists (fun x => is_available cfg x = true) (servers w) ->
  exists s l1 l2,
    findAvailableServer cfg w = Some s /\
    servers w = l1 ++ s :: l2 /\
    ServerInfo.status s = running /\
    ServerInfo.players s < maxPlayersPerServer cfg /\
    Forall (fun x => is_available cfg x = true ->
                     ServerInfo.players s < ServerInfo.players x) l1 /\
    Forall (fun x => is_available cfg x = true ->
                     ServerInfo.players s <= ServerInfo.players x) l2.
Proof.
  intros Hex.
  pose proof (findAvailableServer_spec w) as H.
  destruct (findAvailableServer cfg w) as [s|].
  - destruct H as (l1 & l2 & E & Fs & H1 & H2).
    exists s, l1, l2. repeat split; auto.
    + unfold is_available, is_running in Fs. apply andb_true_iff in Fs.
      destruct Fs as [Fs _]. now destruct (ServerInfo.status s).
    + unfold is_available in Fs. apply andb_true_iff in Fs.
      destruct Fs as [_ Fs]. now apply Z.ltb_lt.
  - exfalso. apply List.Exists_exists in Hex. destruct Hex as (x & Hin & Hx).
    rewrite List.Forall_forall in H. apply H in Hin. congruence.
Qed.

End Placement.

(** C2 as the document states it fails: two servers discovered in the order
    the platform lists them, the newer one first, both empty; the newer one
    is selected. *)
Lemma placement_tie_not_by_createdAt :
  ~ selects_oldest_on_tie cfg_default two_discovered.
Proof.
  intros H.
  specialize (H (discovered (pod "game-server-b" "Running" 2000)) eq_refl
                (discovered (pod "game-server-a" "Running" 1000))).
  destruct H as [H | [_ H]].
  - right; left; reflexivity.
  - reflexivity.
  - simpl in H. lia.
  - simpl in H. lia.
Qed.

Lemma placement_least_loaded_first_inserted_witness :
  exists s l1 l2,
    findAvailableServer cfg_default two_discovered = Some s /\
    servers two_discovered = l1 ++ s :: l2 /\
    ServerInfo.status s = running /\
    ServerInfo.players s < maxPlayersPerServer cfg_default /\
    Forall (fun x => is_available cfg_default x = true ->
                     ServerInfo.players s < ServerInfo.players x) l1 /\
    Forall (fun x => is_available cfg_default x = true ->
                     ServerInfo.players s <= ServerInfo.players x) l2.
Proof.
  apply (placement_least_loaded_first_inserted cfg_default two_discovered).
  apply Exists_cons_hd. reflexivity.
Defined.

(** ** The [Map] of servers: lookups after updates *)

Section ServerMap.

Implicit Types (l : list ServerInfo.t) (s : ServerInfo.t) (k : string).

Lemma map_get_Some k l s :
  map_get k l = Some s -> In s l /\ ServerInfo.id s = k.
Proof.
  unfold map_get. intros H. apply List.find_some in H.
  destruct H as [H1 H2]. now apply String.eqb_eq in H2.
Qed.

Lemma map_get_None k l :
  map_get k l = None -> ~ In k (List.map ServerInfo.id l).
Proof.
  unfold map_get. intros H Hin. apply in_map_iff in Hin.
  destruct Hin as (x & <- & Hin).
  apply (List.find_none _ _ H) in Hin. now rewrite String.eqb_refl in Hin.
Qed.

Lemma map_get_NoDup l s :
  List.NoDup (List.map ServerInfo.id l) -> In s l ->
  map_get (ServerInfo.id s) l = Some s.
Proof.
  induction l as [|x l IH]; simpl; intros Hnd Hin; [easy|].
  inversion Hnd as [|? ? Hx Hnd']; subst.
  destruct Hin as [->|Hin]; [now rewrite String.eqb_refl|].
  destruct (String.eqb_spec (ServerInfo.id x) (ServerInfo.id s)) as [E|_]; [|auto].
  exfalso. apply Hx. rewrite E. now apply in_map.
Qed.

Lemma ids_mutate_players k d l :
  List.map ServerInfo.id (mutate_players k d l) = List.map ServerInfo.id l.
Proof.
  induction l as [|x l IH]; simpl; [reflexivity|].
  destruct (String.eqb _ _); simpl; [reflexivity | now rewrite IH].
Qed.

Lemma map_get_mutate_players k k' d l :
  map_get k (mutate_players k' d l) =
    if String.eqb k' k then add_players d <$> map_get k l else map_get k l.
Proof.
  induction l as [|x l IH]; simpl.
  - now destruct (String.eqb k' k).
  - destruct (String.eqb_spec (ServerInfo.id x) k') as [E|N]; simpl.
    + destruct (String.eqb_spec k' k) as [E'|N'].
      * subst. now rewrite String.eqb_refl.
      * subst k'. now destruct (String.eqb_spec (ServerInfo.id x) k).
    + destruct (String.eqb_spec (ServerInfo.id x) k) as [E|N2].
      * subst k. destruct (String.eqb_spec k' (ServerInfo.id x)); congruence.
      * exact IH.
Qed.

Lemma map_get_map_set s l k :
  map_get k (map_set s l) =
    if String.eqb (ServerInfo.id s) k then Some s else map_get k l.
Proof.
  induction l as [|x l IH]; simpl.
  - now destruct (String.eqb (ServerInfo.id s) k).
  - destruct (String.eqb_spec (ServerInfo.id x) (ServerInfo.id s)) as [E|N]; simpl.
    + rewrite E. now destruct (String.eqb (ServerInfo.id s) k).
    + destruct (String.eqb_spec (ServerInfo.id x) k) as [E|N2].
      * subst k. destruct (String.eqb_spec (ServerInfo.id s) (ServerInfo.id x)); congruence.
      * exact IH.
Qed.

Lemma map_get_map_delete k k' l :
  map_get k (map_delete k' l) =
    if String.eqb k' k then None else map_get k l.
Proof.
  induction l as [|x l IH]; simpl.
  - now destruct (String.eqb k' k).
  - destruct (String.eqb_spec (ServerInfo.id x) k') as [E|N]; simpl.
    + rewrite IH. subst k'.
      now destruct (String.eqb_spec (ServerInfo.id x) k).
    + destruct (String.eqb_spec (ServerInfo.id x) k) as [E|N2]; [|exact IH].
      subst k. destruct (String.eqb_spec k' (ServerInfo.id x)); congruence.
Qed.

Lemma ids_map_set_In s l k :
  In k (List.map ServerInfo.id (map_set s l)) <->
  k = ServerInfo.id s \/ In k (List.map ServerInfo.id l).
Proof.
  induction l as [|x l IH]; simpl; [intuition|].
  destruct (String.eqb_spec (ServerInfo.id x) (ServerInfo.id s)) as [E|N]; simpl.
  - rewrite E. intuition.
  - rewrite IH. intuition.
Qed.

Lemma NoDup_map_set s l :
  List.NoDup (List.map ServerInfo.id l) ->
  List.NoDup (List.map ServerInfo.id (map_set s l)).
Proof.
  induction l as [|x l IH]; simpl; intros H.
  - constructor; [easy | constructor].
  - inversion H as [|? ? Hx Hnd]; subst.
    destruct (String.eqb_spec (ServerInfo.id x) (ServerInfo.id s)) as [E|N]; simpl.
    + constructor; [now rewrite <- E | exact Hnd].
    + constructor; [|auto].
      rewrite ids_map_set_In. intros [E|Hin]; congruence.
Qed.

Lemma NoDup_map_delete k l :
  List.NoDup (List.map ServerInfo.id l) ->
  List.NoDup (List.map ServerInfo.id (map_delete k l)).
Proof.
  induction l as [|x l IH]; simpl; intros H; [constructor|].
  inversion H as [|? ? Hx Hnd]; subst.
  destruct (negb _); simpl; [|auto].
  constructor; [|auto].
  intros Hin. apply Hx. apply in_map_iff in Hin.
  destruct Hin as (y & E & Hy). apply in_map_iff. exists y. split; [exact E|].
  unfold map_delete in Hy. now apply List.filter_In in Hy.
Qed.

End ServerMap.

(** ** The ['request-server'] handler *)

Section RequestServer.

Variable cfg : Config.
Variable env : Env.

Lemma findAvailableServer_In w s :
  findAvailableServer cfg w = Some s ->
  In s (servers w) /\ is_available cfg s = true.
Proof.
  intros H. pose proof (findAvailableServer_spec cfg w) as Hs.
  rewrite H in Hs. destruct Hs as (l1 & l2 & E & Fs & _).
  split; [|exact Fs]. rewrite E. apply in_or_app. right. now left.
Qed.

(** C3, amended.  A request for a player who already has a session is
    served like any other: when a server is available it is assigned, its
    player count goes up by one, the session of the player is overwritten
    with it, every other server and session is left alone and the platform
    is not called. *)
Theorem request_server_rebinds (p : string) (w : Controller) (s : ServerInfo.t) :
  List.NoDup (List.map ServerInfo.id (servers w)) ->
  is_Some (players w !! p) ->
  findAvailableServer cfg w = Some s ->
  let (e, w') := request_server cfg env p w in
  e = server_assigned (ServerInfo.id s) (ServerInfo.ip s) (ServerInfo.port s) /\
  players w' = <[p := ServerInfo.id s]> (players w) /\
  map_get (ServerInfo.id s) (servers w') = Some (add_players 1 s) /\
  (forall k, k <> ServerInfo.id s -> map_get k (servers w') = map_get k (servers w)) /\
  calls w' = calls w.
Proof.
  intros Hnd _ Hs. unfold request_server. rewrite Hs. simpl.
  destruct (findAvailableServer_In _ _ Hs) as [Hin _].
  repeat split.
  - rewrite map_get_mutate_players, String.eqb_refl.
    now rewrite (map_get_NoDup _ _ Hnd Hin).
  - intros k Hk. rewrite map_get_mutate_players.
    destruct (String.eqb_spec (ServerInfo.id s) k); congruence.
Qed.

(** C4, amended.  When no running server has room, the handler itself asks
    the platform for one new server, once.  If the call succeeds the client
    is sent the id of the new server, registered as [starting] with no
    player, and is told to retry; if it fails the client is sent an error
    and the registry is unchanged.  No session is recorded either way. *)
Theorem request_server_provisions (p : string) (w : Controller) :
  findAvailableServer cfg w = None ->
  let k := length (calls w) in
  let (e, w') := request_server cfg env p w in
  calls w' = calls w ++ [createNamespacedDeployment (gen_id env k)] /\
  players w' = players w /\
  (reply_ok env k = true ->
     e = server_assigned_new (gen_id env k) "New server created, please retry in a moment" /\
     map_get (gen_id env k) (servers w') =
       Some (ServerInfo.mk (gen_id env k) None None 0 starting (clock env k)) /\
     forall k', k' <> gen_id env k -> map_get k' (servers w') = map_get k' (servers w)) /\
  (reply_ok env k = false ->
     e = error_event "Unable to assign server" /\ servers w' = servers w).
Proof.
  intros Hs. unfold request_server. rewrite Hs.
  rewrite createGameServer_spec. simpl.
  destruct (reply_ok env (length (calls w))); simpl.
  - repeat split; try discriminate.
    + rewrite map_get_map_set. simpl. now rewrite String.eqb_refl.
    + intros k' Hk. rewrite map_get_map_set. simpl.
      destruct (String.eqb_spec (gen_id env (length (calls w))) k'); congruence.
  - repeat split; discriminate.
Qed.

End RequestServer.

(** C3 as the document states it fails: ["alice"] is bound to the first
    discovered server, asks again, and is assigned the second one, whose
    player count goes from 0 to 1. *)
Lemma second_bind_not_rejected :
  ~ rejects_second_bind cfg_default (env_ok two_pods) "alice" alice_placed.
Proof.
  intros H. unfold rejects_second_bind in H.
  assert (Hb : is_Some (players alice_placed !! "alice")).
  { exists "game-server-b". vm_compute. reflexivity. }
  specialize (H Hb).
  destruct (request_server cfg_default (env_ok two_pods) "alice" alice_placed)
    as [e w'] eqn:E.
  destruct H as (_ & _ & H).
  apply (f_equal snd) in E. simpl in E. subst w'.
  vm_compute in H. discriminate H.
Qed.

Lemma request_server_rebinds_witness :
  let (e, w') := request_server cfg_default (env_ok two_pods) "alice" alice_placed in
  e = server_assigned "game-server-a" (Some "10.0.0.1") (Some 3000) /\
  players w' = <["alice" := "game-server-a"]> (players alice_placed) /\
  map_get "game-server-a" (servers w') =
    Some (add_players 1 (discovered (pod "game-server-a" "Running" 1000))) /\
  (forall k, k <> "game-server-a" -> map_get k (servers w') = map_get k (servers alice_placed)) /\
  calls w' = calls alice_placed.
Proof.
  apply (request_server_rebinds cfg_default (env_ok two_pods) "alice" alice_placed
           (discovered (pod "game-server-a" "Running" 1000))).
  - vm_compute. repeat constructor; simpl; intuition discriminate.
  - exists "game-server-b". vm_compute. reflexivity.
  - vm_compute. reflexivity.
Defined.

(** C4 as the document states it fails: on the empty registry the handler
    issues a create call and answers with the id of the new server. *)
Lemma no_capacity_provisions :
  ~ no_capacity_without_provisioning cfg_default (env_ok []) "alice" constructor.
Proof.
  intros H. unfold no_capacity_without_provisioning in H.
  specialize (H eq_refl).
  destruct (request_server cfg_default (env_ok []) "alice" constructor)
    as [e w'] eqn:E.
  destruct H as (_ & _ & H).
  apply (f_equal snd) in E. simpl in E. subst w'.
  vm_compute in H. discriminate H.
Qed.

Lemma request_server_provisions_witness :
  let (e, w') := request_server cfg_default (env_ok []) "alice" constructor in
  calls w' = calls constructor ++ [createNamespacedDeployment (gen_id (env_ok []) 0)] /\
  players w' = players constructor /\
  (reply_ok (env_ok []) 0 = true ->
     e = server_assigned_new (gen_id (env_ok []) 0) "New server created, please retry in a moment" /\
     map_get (gen_id (env_ok []) 0) (servers w') =
       Some (ServerInfo.mk (gen_id (env_ok []) 0) None None 0 starting (clock (env_ok []) 0)) /\
     forall k', k' <> gen_id (env_ok []) 0 -> map_get k' (servers w') = map_get k' (servers constructor)) /\
  (reply_ok (env_ok []) 0 = false ->
     e = error_event "Unable to assign server" /\ servers w' = servers constructor).
Proof.
  apply (request_server_provisions cfg_default (env_ok []) "alice" constructor).
  reflexivity.
Defined.

(** ** The invariant: no player count above the capacity *)

Section Invariant.

Variable cfg : Config.
Variable env : Env.
Hypothesis capacity_nonneg : 0 <= maxPlayersPerServer cfg.

Lemma Forall_map_set (P : ServerInfo.t -> Prop) s l :
  P s -> Forall P l -> Forall P (map_set s l).
Proof.
  intros Hs. induction 1 as [|x l Hx Hl IH]; simpl.
  - now constructor.
  - destruct (String.eqb _ _); constructor; auto.
Qed.

Lemma Forall_map_delete (P : ServerInfo.t -> Prop) k l :
  Forall P l -> Forall P (map_delete k l).
Proof.
  induction 1 as [|x l Hx Hl IH]; simpl; [constructor|].
  destruct (negb _); [constructor|]; auto.
Qed.

Lemma Forall_mutate_players (P : ServerInfo.t -> Prop) k d l :
  Forall P l ->
  (forall x, map_get k l = Some x -> P (add_players d x)) ->
  Forall P (mutate_players k d l).
Proof.
  induction 1 as [|x l Hx Hl IH]; simpl; intros Hk; [constructor|].
  destruct (String.eqb (ServerInfo.id x) k); constructor; auto.
Qed.

Lemma registry_ok_map_set s l :
  ServerInfo.players s = 0 -> registry_ok cfg l -> registry_ok cfg (map_set s l).
Proof.
  intros Hs [Hnd Hall]. split; [now apply NoDup_map_set|].
  apply Forall_map_set; [|exact Hall]. unfold within_capacity. lia.
Qed.

Lemma registry_ok_map_delete k l :
  registry_ok cfg l -> registry_ok cfg (map_delete k l).
Proof.
  intros [Hnd Hall]. split; [now apply NoDup_map_delete | now apply Forall_map_delete].
Qed.

Lemma registry_ok_discover items l :
  registry_ok cfg l -> registry_ok cfg (List.fold_left discover_pod items l).
Proof.
  revert l. induction items as [|pod items IH]; simpl; intros l Hl; [exact Hl|].
  apply IH. unfold discover_pod.
  destruct (String.eqb _ _); [|exact Hl].
  now apply registry_ok_map_set.
Qed.

Lemma registry_ok_discoverExistingServers w :
  registry_ok cfg (servers w) ->
  registry_ok cfg (servers (discoverExistingServers env w).2).
Proof.
  intros H. unfold discoverExistingServers, try_catch. simpl.
  destruct (list_pods env _); simpl; [|exact H].
  now apply registry_ok_discover.
Qed.

Lemma registry_ok_createGameServer w :
  registry_ok cfg (servers w) ->
  registry_ok cfg (servers (createGameServer env w).2).
Proof.
  intros H. rewrite createGameServer_spec. simpl.
  destruct (reply_ok env _); simpl; [|exact H].
  now apply registry_ok_map_set.
Qed.

Lemma registry_ok_deleteGameServer k w :
  registry_ok cfg (servers w) ->
  registry_ok cfg (servers (deleteGameServer env k w).2).
Proof.
  intros H. rewrite deleteGameServer_spec. simpl.
  destruct (reply_ok env _); simpl; [|exact H].
  now apply registry_ok_map_delete.
Qed.

Lemma registry_ok_create_loop n w :
  registry_ok cfg (servers w) ->
  registry_ok cfg (servers (create_loop env n w).2).
Proof.
  revert w. induction n as [|n IH]; intros w H; simpl; [exact H|].
  unfold mbind, M_bind.
  pose proof (registry_ok_createGameServer w H) as Hc.
  destruct (createGameServer env w) as [[s|] w1]; simpl in *; auto.
Qed.

Lemma registry_ok_ensureMinimumServers w :
  registry_ok cfg (servers w) ->
  registry_ok cfg (servers (ensureMinimumServers cfg env w).2).
Proof.
  intros H. unfold ensureMinimumServers.
  destruct (_ <? _); [now apply registry_ok_create_loop | exact H].
Qed.

Lemma registry_ok_scaleServers w :
  registry_ok cfg (servers w) ->
  registry_ok cfg (servers (scaleServers cfg env w).2).
Proof.
  intros H. rewrite scaleServers_spec. simpl.
  set (rs := List.filter is_running (servers w)).
  assert (Hdown : forall w0, registry_ok cfg (servers w0) ->
    registry_ok cfg (servers
      (if scale_down_fires cfg rs then
         match List.filter is_idle rs with
         | s :: _ => deleteGameServer env (ServerInfo.id s) w0
         | [] => (Ok tt, w0)
         end
       else (Ok tt, w0)).2)).
  { intros w0 H0. destruct (scale_down_fires cfg rs); [|exact H0].
    destruct (List.filter is_idle rs); [exact H0|].
    now apply registry_ok_deleteGameServer. }
  destruct (scale_up_fires cfg rs); [|now apply Hdown].
  pose proof (registry_ok_createGameServer w H) as Hc.
  destruct (createGameServer env w) as [[s|] w1]; simpl in *; auto.
Qed.

Lemma registry_ok_request_server p w :
  registry_ok cfg (servers w) ->
  registry_ok cfg (servers (request_server cfg env p w).2).
Proof.
  intros H. unfold request_server.
  destruct (findAvailableServer cfg w) as [s|] eqn:Hs; simpl.
  - destruct H as [Hnd Hall].
    destruct (findAvailableServer_In cfg _ _ Hs) as [Hin Ha].
    split; [now rewrite ids_mutate_players|].
    apply Forall_mutate_players; [exact Hall|].
    intros x Hx. rewrite (map_get_NoDup _ _ Hnd Hin) in Hx.
    injection Hx as <-.
    rewrite List.Forall_forall in Hall. specialize (Hall _ Hin).
    unfold is_available in Ha. apply andb_true_iff in Ha.
    destruct Ha as [_ Ha]. apply Z.ltb_lt in Ha.
    unfold within_capacity in *. simpl. lia.
  - pose proof (registry_ok_createGameServer w H) as Hc.
    destruct (createGameServer env w) as [[s|] w1]; simpl in *; auto.
Qed.

Lemma registry_ok_player_disconnect p w :
  registry_ok cfg (servers w) ->
  registry_ok cfg (servers (player_disconnect p w)).
Proof.
  intros H. unfold player_disconnect.
  destruct (players w !! p) as [sid|]; [|exact H].
  destruct (truthy sid); [|exact H].
  destruct (map_get sid (servers w)) as [server|] eqn:Hg; simpl; [|exact H].
  destruct (Z.ltb_spec 0 (ServerInfo.players server)) as [Hpos|_]; simpl; [|exact H].
  destruct H as [Hnd Hall].
  split; [now rewrite ids_mutate_players|].
  apply Forall_mutate_players; [exact Hall|].
  intros x Hx. rewrite Hg in Hx. injection Hx as <-.
  apply map_get_Some in Hg. destruct Hg as [Hin _].
  rewrite List.Forall_forall in Hall. specialize (Hall _ Hin).
  unfold within_capacity in *. simpl. lia.
Qed.

Lemma registry_ok_run_op o w :
  registry_ok cfg (servers w) -> registry_ok cfg (servers (run_op cfg env o w)).
Proof.
  destruct o; simpl;
    auto using registry_ok_discoverExistingServers, registry_ok_ensureMinimumServers,
      registry_ok_scaleServers, registry_ok_createGameServer,
      registry_ok_deleteGameServer, registry_ok_request_server,
      registry_ok_player_disconnect.
Qed.

Lemma registry_ok_run_ops ops w :
  registry_ok cfg (servers w) -> registry_ok cfg (servers (run_ops cfg env ops w)).
Proof.
  revert w. induction ops as [|o ops IH]; intros w H; simpl; [exact H|].
  apply IH. now apply registry_ok_run_op.
Qed.

(** C5.  After any sequence of discoveries, top-ups, scaling ticks, manual
    creations and deletions, placements and releases run on the fresh
    controller, no running server of the registry has more players than
    [maxPlayersPerServer] (the capacity being a non-negative number). *)
Theorem players_never_exceed_capacity (ops : list Op) :
  Forall (fun s => ServerInfo.players s <= maxPlayersPerServer cfg)
         (List.filter is_running (servers (run_ops cfg env ops constructor))).
Proof.
  assert (H : registry_ok cfg (servers (run_ops cfg env ops constructor))).
  { apply registry_ok_run_ops. split; constructor. }
  destruct H as [_ H].
  apply List.Forall_forall. intros s Hs.
  apply List.filter_In in Hs. destruct Hs as [Hs _].
  rewrite List.Forall_forall in H. apply H in Hs. unfold within_capacity in Hs. lia.
Qed.

End Invariant.

(** ** The scale-down rule *)

Section ScaleDown.

Variable cfg : Config.
Variable env : Env.

Lemma length_map_set s l : (length l <= length (map_set s l))%nat.
Proof.
  induction l as [|x l IH]; simpl; [lia|].
  destruct (String.eqb _ _); simpl; lia.
Qed.

Lemma map_delete_absent k l :
  ~ In k (List.map ServerInfo.id l) -> map_delete k l = l.
Proof.
  induction l as [|x l IH]; simpl; intros H; [reflexivity|].
  destruct (String.eqb_spec (ServerInfo.id x) k) as [E|N]; simpl.
  - elim H. now left.
  - rewrite IH; [reflexivity | tauto].
Qed.

Lemma length_map_delete k l :
  List.NoDup (List.map ServerInfo.id l) ->
  (length l <= S (length (map_delete k l)))%nat.
Proof.
  induction l as [|x l IH]; simpl; intros H; [lia|].
  inversion H as [|? ? Hx Hnd]; subst.
  destruct (String.eqb_spec (ServerInfo.id x) k) as [E|N]; simpl.
  - subst k. rewrite map_delete_absent by exact Hx. lia.
  - specialize (IH Hnd). lia.
Qed.

Lemma createGameServer_facts w :
  let (r, w1) := createGameServer env w in
  (match r with
   | Ok _ => reply_ok env (length (calls w)) = true
   | Throw => reply_ok env (length (calls w)) = false
   end) /\
  deletes w1 = deletes w /\
  (length (servers w) <= length (servers w1))%nat /\
  (List.NoDup (List.map ServerInfo.id (servers w)) ->
   List.NoDup (List.map ServerInfo.id (servers w1))).
Proof.
  rewrite createGameServer_spec. simpl.
  destruct (reply_ok env (length (calls w))); simpl.
  - split; [reflexivity|]. split; [apply deletes_issue_create|].
    split; [apply length_map_set | apply NoDup_map_set].
  - split; [reflexivity|]. split; [apply deletes_issue_create|]. split; [lia | auto].
Qed.

Lemma deleteGameServer_length k w :
  List.NoDup (List.map ServerInfo.id (servers w)) ->
  (length (servers w) <= S (length (servers (deleteGameServer env k w).2)))%nat.
Proof.
  intros Hnd. rewrite deleteGameServer_spec. simpl.
  destruct (reply_ok env _); simpl; [now apply length_map_delete | lia].
Qed.

Lemma scale_down_fires_iff rs :
  scale_down_fires cfg rs = true <->
  (1 < length (List.filter is_idle rs))%nat /\ minServers cfg < Z.of_nat (length rs).
Proof.
  unfold scale_down_fires. rewrite andb_true_iff, !Z.ltb_lt. lia.
Qed.

(** The second half of the tick, run on the state [w0] it starts from. *)
Lemma scale_down_step rs w0 :
  let idle := List.filter is_idle rs in
  let w' := (if scale_down_fires cfg rs then
               match idle with
               | s :: _ => deleteGameServer env (ServerInfo.id s) w0
               | [] => (Ok tt, w0)
               end
             else (Ok tt, w0)).2 in
  ((1 < length idle)%nat -> minServers cfg < Z.of_nat (length rs) ->
   exists s rest, idle = s :: rest /\ deletes w' = deletes w0 ++ [ServerInfo.id s]) /\
  (~ ((1 < length idle)%nat /\ minServers cfg < Z.of_nat (length rs)) ->
   deletes w' = deletes w0) /\
  (length (deletes w') <= S (length (deletes w0)))%nat /\
  (List.NoDup (List.map ServerInfo.id (servers w0)) ->
   (length (servers w0) <= S (length (servers w')))%nat).
Proof.
  intros idle. pose proof (scale_down_fires_iff rs) as Hd. fold idle in Hd.
  destruct (scale_down_fires cfg rs).
  - destruct Hd as [Hd _]. specialize (Hd eq_refl).
    destruct idle as [|s rest]; [simpl in Hd; lia|]. simpl.
    rewrite deleteGameServer_deletes.
    split; [intros; eauto|]. split; [tauto|].
    split; [rewrite length_app; simpl; lia | apply deleteGameServer_length].
  - simpl. split; [intros H1 H2; destruct Hd as [_ Hd]; now specialize (Hd (conj H1 H2))|].
    split; [reflexivity|]. split; lia.
Qed.

(** C6, amended.  Unless the tick was stopped by a refused create call of
    the scale-up rule, it requests the deletion of the first idle running
    server, in insertion order, exactly when more than one running server
    is idle and more than [minServers] are running; otherwise it requests
    no deletion.  A tick requests at most one deletion and removes at most
    one record from the registry. *)
Theorem scale_down_rule (w : Controller) :
  let rs := List.filter is_running (servers w) in
  let idle := List.filter is_idle rs in
  let w' := (scaleServers cfg env w).2 in
  let create_refused :=
    scale_up_fires cfg rs && negb (reply_ok env (length (calls w))) in
  (create_refused = false ->
   (1 < length idle)%nat -> minServers cfg < Z.of_nat (length rs) ->
   exists s rest, idle = s :: rest /\ deletes w' = deletes w ++ [ServerInfo.id s]) /\
  (create_refused = true \/
   ~ ((1 < length idle)%nat /\ minServers cfg < Z.of_nat (length rs)) ->
   deletes w' = deletes w) /\
  (length (deletes w') <= S (length (deletes w)))%nat /\
  (List.NoDup (List.map ServerInfo.id (servers w)) ->
   (length (servers w) <= S (length (servers w')))%nat).
Proof.
  intros rs idle w' create_refused. subst w' create_refused.
  rewrite scaleServers_spec. simpl. fold rs.
  destruct (scale_up_fires cfg rs); simpl.
  - pose proof (createGameServer_facts w) as Hc.
    destruct (createGameServer env w) as [[s0|] w1];
      destruct Hc as (Hr & Hdel & Hlen & Hnd); rewrite Hr; simpl.
    + destruct (scale_down_step rs w1) as (H1 & H2 & H3 & H4).
      fold idle in H1, H2, H3, H4. rewrite Hdel in H1, H2, H3.
      split; [intros _; exact H1|].
      split; [intros [?|H]; [discriminate | auto]|].
      split; [exact H3|].
      intros Hw. specialize (H4 (Hnd Hw)).
      eapply Nat.le_trans; [exact Hlen | exact H4].
    + rewrite Hdel. split; [discriminate|]. split; [reflexivity|].
      split; [lia | intros _; lia].
  - destruct (scale_down_step rs w) as (H1 & H2 & H3 & H4).
    fold idle in H1, H2, H3, H4.
    split; [intros _; exact H1|].
    split; [intros [?|H]; [discriminate | auto]|].
    split; [exact H3 | exact H4].
Qed.

End ScaleDown.

(** C6 as the document states it fails: nine full servers and two idle ones
    out of at most twenty make both rules fire; the platform refuses the
    create call, the tick stops there and no deletion is requested. *)
Lemma scale_down_skipped_after_refused_create :
  ~ scale_down_as_documented cfg_small env_create_fails nine_full_two_idle.
Proof.
  intros [H _].
  destruct H as (s & rest & _ & H).
  - split; vm_compute; [lia | reflexivity].
  - vm_compute in H. destruct (deletes nine_full_two_idle); discriminate H.
Qed.

(** ** Startup: discovery, then the minimum pool *)

Section Startup.

Variable cfg : Config.
Variable env : Env.

Lemma map_set_absent s l :
  ~ In (ServerInfo.id s) (List.map ServerInfo.id l) -> map_set s l = l ++ [s].
Proof.
  induction l as [|x l IH]; simpl; intros H; [reflexivity|].
  destruct (String.eqb_spec (ServerInfo.id x) (ServerInfo.id s)) as [E|N].
  - elim H. now left.
  - rewrite IH; [reflexivity | tauto].
Qed.

(** With pod names all different and new, discovery appends one running
    record per pod in phase [Running], in the order of the list. *)
Lemma discover_distinct items l :
  List.NoDup (List.map metadata_name items) ->
  (forall pod, In pod items -> ~ In (metadata_name pod) (List.map ServerInfo.id l)) ->
  List.fold_left discover_pod items l =
    l ++ List.map discovered (List.filter pod_is_running items).
Proof.
  revert l. induction items as [|pod items IH]; simpl; intros l Hnd Hnew.
  - now rewrite app_nil_r.
  - inversion Hnd as [|? ? Hp Hnd']; subst.
    unfold discover_pod at 2. unfold pod_is_running at 1.
    destruct (String.eqb (status_phase pod) "Running").
    + rewrite map_set_absent by (apply Hnew; now left).
      rewrite IH; [simpl; now rewrite <- app_assoc | exact Hnd' |].
      intros q Hq Hin. rewrite map_app in Hin. apply in_app_or in Hin.
      destruct Hin as [Hin|Hin].
      * apply (Hnew q); [now right | exact Hin].
      * simpl in Hin. destruct Hin as [E|[]].
        apply Hp. rewrite E. now apply in_map.
    + apply IH; [exact Hnd'|]. intros q Hq. apply Hnew. now right.
Qed.

Lemma filter_running_discovered items :
  List.filter is_running (List.map discovered items) = List.map discovered items.
Proof. induction items as [|pod items IH]; simpl; [reflexivity | now rewrite IH]. Qed.

Lemma discoverExistingServers_spec w :
  discoverExistingServers env w =
    (Ok tt,
     match list_pods env (length (calls w)) with
     | Some items =>
         set_servers (List.fold_left discover_pod items (servers w))
           (issue listNamespacedPod w)
     | None => issue listNamespacedPod w
     end).
Proof.
  unfold discoverExistingServers, try_catch. simpl.
  now destruct (list_pods env _).
Qed.

Lemma createGameServer_calls_length w :
  length (calls (createGameServer env w).2) = S (length (calls w)).
Proof.
  rewrite createGameServer_spec. simpl.
  destruct (reply_ok env _); simpl; rewrite length_app; simpl; lia.
Qed.

(** The loop of [ensureMinimumServers]: it stops at the first refused call. *)
Lemma create_loop_spec n w :
  let (r, w') := create_loop env n w in
  (creates w' <= creates w + n)%nat /\
  (r = Ok tt <-> forall i, (i < n)%nat -> reply_ok env (length (calls w) + i) = true) /\
  (r = Ok tt -> creates w' = (creates w + n)%nat).
Proof.
  revert w. induction n as [|n IH]; intros w; simpl.
  - unfold mret, M_ret. split; [lia|]. split; [|intros; lia].
    split; [intros _ i Hi; lia | reflexivity].
  - unfold mbind, M_bind.
    pose proof (createGameServer_creates env w) as Hc.
    pose proof (createGameServer_calls_length w) as Hl.
    pose proof (createGameServer_facts env w) as Hf.
    destruct (createGameServer env w) as [[s|] w1]; simpl in *;
      destruct Hf as (Hr & _).
    + specialize (IH w1). destruct (create_loop env n w1) as [r w'].
      destruct IH as (H1 & H2 & H3). rewrite Hc, Hl in *.
      split; [lia|]. split; [|intros H; specialize (H3 H); lia].
      rewrite H2. split.
      * intros H i Hi. destruct i as [|i]; [now rewrite Nat.add_0_r|].
        replace (length (calls w) + S i)%nat with (S (length (calls w)) + i)%nat by lia.
        apply H. lia.
      * intros H i Hi.
        replace (S (length (calls w)) + i)%nat with (length (calls w) + S i)%nat by lia.
        apply H. lia.
    + split; [lia|]. split; [|discriminate].
      split; [discriminate|]. intros H. specialize (H O ltac:(lia)).
      rewrite Nat.add_0_r in H. congruence.
Qed.

(** C7, amended.  Started on the fresh controller, [initialize] issues at
    most [max(0, minServers - n)] create calls after discovery, [n] being
    the number of running servers discovered; it issues exactly that many
    when the platform accepts each of them, which is also exactly when it
    completes.  A failed discovery leaves the registry empty, so that
    [n = 0]; with distinct pod names [n] is the number of pods in phase
    [Running]. *)
Theorem startup_reaches_minimum :
  let wd := (discoverExistingServers env constructor).2 in
  let n := length (List.filter is_running (servers wd)) in
  let N := Z.to_nat (Z.max 0 (minServers cfg - Z.of_nat n)) in
  let (r, w) := initialize cfg env constructor in
  (list_pods env 0 = None -> servers wd = [] /\ n = O) /\
  (forall items, list_pods env 0 = Some items ->
     List.NoDup (List.map metadata_name items) ->
     n = length (List.filter pod_is_running items)) /\
  (creates w <= N)%nat /\
  (r = Ok tt <-> forall i, (i < N)%nat -> reply_ok env (S i) = true) /\
  (r = Ok tt -> creates w = N).
Proof.
  unfold initialize, mbind, M_bind.
  rewrite discoverExistingServers_spec. simpl.
  set (wd := match list_pods env 0 with
             | Some items =>
                 set_servers (List.fold_left discover_pod items [])
                   (issue listNamespacedPod constructor)
             | None => issue listNamespacedPod constructor
             end).
  assert (Hcalls : calls wd = [listNamespacedPod])
    by (subst wd; now destruct (list_pods env 0)).
  assert (Hcr : creates wd = O) by (unfold creates; now rewrite Hcalls).
  destruct (ensureMinimumServers cfg env wd) as [r w] eqn:He.
  split; [|split].
  - subst wd. intros ->. split; reflexivity.
  - subst wd. intros items -> Hnd. simpl.
    rewrite discover_distinct; [|exact Hnd|intros ? ? []]. simpl.
    now rewrite filter_running_discovered, length_map.
  - unfold ensureMinimumServers in He.
    set (n := length (List.filter is_running (servers wd))) in *.
    destruct (Z.ltb_spec (Z.of_nat n) (minServers cfg)) as [Hlt|Hge].
    + pose proof (create_loop_spec (Z.to_nat (minServers cfg - Z.of_nat n)) wd) as H.
      rewrite He in H.
      replace (Z.to_nat (Z.max 0 (minServers cfg - Z.of_nat n)))
        with (Z.to_nat (minServers cfg - Z.of_nat n)) by lia.
      rewrite Hcr, Hcalls in H. exact H.
    + replace (Z.to_nat (Z.max 0 (minServers cfg - Z.of_nat n))) with O by lia.
      injection He as <- <-. rewrite Hcr. split; [lia|].
      split; [|reflexivity]. split; [intros _ i Hi; lia | reflexivity].
Qed.

End Startup.

(** C7 as the document states it fails: discovery fails, two servers are
    missing, the platform refuses the first create call and the second one
    is never issued. *)
Lemma startup_stops_at_refused_create :
  ~ startup_as_documented cfg_default env_down.
Proof. unfold startup_as_documented. vm_compute. discriminate. Qed.

(** ** The ['player-disconnect'] handler *)

Section PlayerDisconnect.

Lemma released_refl l : Forall2 released l l.
Proof. induction l; constructor; auto. now left. Qed.

Lemma released_mutate_players k l x :
  map_get k l = Some x -> 0 < ServerInfo.players x ->
  Forall2 released l (mutate_players k (-1) l).
Proof.
  induction l as [|y l IH]; simpl; intros Hg Hpos; [constructor|].
  destruct (String.eqb (ServerInfo.id y) k).
  - injection Hg as ->. constructor; [right; auto | apply released_refl].
  - constructor; [now left | auto].
Qed.

Lemma player_disconnect_unbinds p w :
  players (player_disconnect p w) !! p = None \/ player_disconnect p w = w.
Proof.
  unfold player_disconnect.
  destruct (players w !! p) as [sid|] eqn:Hp; [|now right].
  destruct (truthy sid); [|now right].
  left. simpl. apply lookup_delete_eq.
Qed.

(** C8.  Releasing a player twice leaves the controller as releasing once
    does; releasing a player without a session changes nothing; a release
    changes at most one record, taking one player away from a record that
    has at least one, so that no count goes below zero; and it calls the
    platform never. *)
Theorem release_idempotent (p : string) (w : Controller) :
  player_disconnect p (player_disconnect p w) = player_disconnect p w /\
  (players w !! p = None -> player_disconnect p w = w) /\
  Forall2 released (servers w) (servers (player_disconnect p w)) /\
  (Forall (fun s => 0 <= ServerInfo.players s) (servers w) ->
   Forall (fun s => 0 <= ServerInfo.players s) (servers (player_disconnect p w))) /\
  calls (player_disconnect p w) = calls w.
Proof.
  assert (Hrel : Forall2 released (servers w) (servers (player_disconnect p w))).
  { unfold player_disconnect.
    destruct (players w !! p) as [sid|]; [|apply released_refl].
    destruct (truthy sid); [|apply released_refl].
    destruct (map_get sid (servers w)) as [server|] eqn:Hg; simpl;
      [|apply released_refl].
    destruct (Z.ltb_spec 0 (ServerInfo.players server)); simpl;
      [|apply released_refl].
    eapply released_mutate_players; eauto. }
  split; [|split; [|split; [exact Hrel | split]]].
  - destruct (player_disconnect_unbinds p w) as [H|H].
    + unfold player_disconnect at 1. now rewrite H.
    + now rewrite !H.
  - intros H. unfold player_disconnect. now rewrite H.
  - intros Hall. revert Hall Hrel.
    generalize (servers (player_disconnect p w)). generalize (servers w).
    intros l l' Hall Hrel. induction Hrel as [|s s' l l' Hs Hl IH]; [constructor|].
    inversion Hall; subst. constructor; [|auto].
    destruct Hs as [->|[Hpos ->]]; [assumption | simpl; lia].
  - unfold player_disconnect.
    destruct (players w !! p) as [sid|]; [|reflexivity].
    destruct (truthy sid); [|reflexivity].
    destruct (map_get sid (servers w)) as [server|]; simpl; [|reflexivity].
    now destruct (0 <? ServerInfo.players server).
Qed.

End PlayerDisconnect.

(** ** The average load *)

Section AverageLoad.

Variable cfg : Config.
Variable env : Env.

(** C9, amended.  The tick divides the total by the number of running
    servers itself.  With at least one running server this is the quotient
    the document describes.  With none the quotient is 0/0, which is NaN
    and not 0; the computation still completes, no comparison with NaN
    holds, and the tick changes nothing and calls nothing. *)
Theorem average_load_quotient (w : Controller) :
  let rs := List.filter is_running (servers w) in
  (rs <> [] ->
     averageLoad rs = JNum (totalPlayers rs # Pos.of_nat (length rs)) /\
     averageLoad rs = averageLoad_documented rs) /\
  (rs = [] ->
     averageLoad rs = JNaN /\
     scale_up_fires cfg rs = false /\
     scale_down_fires cfg rs = false /\
     scaleServers cfg env w = (Ok tt, w)).
Proof.
  intros rs. split.
  - intros Hne. unfold averageLoad, averageLoad_documented.
    destruct rs as [|s rs']; [congruence|].
    rewrite js_div_pos by (simpl; lia).
    split; [reflexivity|]. now rewrite Nat.max_r by (simpl; lia).
  - intros E. rewrite scaleServers_spec. simpl. fold rs. rewrite E.
    repeat split.
Qed.

End AverageLoad.

(** C9 as the document states it fails: on the fresh controller, which has
    no running server, the average load is NaN and not 0. *)
Lemma average_of_empty_pool_is_nan :
  ~ average_as_documented constructor.
Proof. unfold average_as_documented. simpl. discriminate. Qed.

(** ** Servers created by the controller stay [starting] *)

Section Starting.

Variable cfg : Config.
Variable env : Env.

Lemma no_running_map_set k s l :
  ServerInfo.status s = starting ->
  no_running_record k l -> no_running_record k (map_set s l).
Proof.
  intros Hs. unfold no_running_record. apply Forall_map_set.
  intros _. rewrite Hs. discriminate.
Qed.

Lemma no_running_map_delete k k' l :
  no_running_record k l -> no_running_record k (map_delete k' l).
Proof. apply Forall_map_delete. Qed.

Lemma no_running_mutate_players k k' d l :
  no_running_record k l -> no_running_record k (mutate_players k' d l).
Proof.
  induction 1 as [|x l Hx Hl IH]; simpl; [constructor|].
  destruct (String.eqb _ _); constructor; auto.
Qed.

Lemma no_running_createGameServer k w :
  no_running_record k (servers w) ->
  no_running_record k (servers (createGameServer env w).2).
Proof.
  intros H. rewrite createGameServer_spec. simpl.
  destruct (reply_ok env _); simpl; [|exact H].
  now apply no_running_map_set.
Qed.

Lemma no_running_deleteGameServer k k' w :
  no_running_record k (servers w) ->
  no_running_record k (servers (deleteGameServer env k' w).2).
Proof.
  intros H. rewrite deleteGameServer_spec. simpl.
  destruct (reply_ok env _); simpl; [|exact H].
  now apply no_running_map_delete.
Qed.

Lemma no_running_create_loop k n w :
  no_running_record k (servers w) ->
  no_running_record k (servers (create_loop env n w).2).
Proof.
  revert w. induction n as [|n IH]; intros w H; simpl; [exact H|].
  unfold mbind, M_bind.
  pose proof (no_running_createGameServer k w H) as Hc.
  destruct (createGameServer env w) as [[s|] w1]; simpl in *; auto.
Qed.

Lemma no_running_scaleServers k w :
  no_running_record k (servers w) ->
  no_running_record k (servers (scaleServers cfg env w).2).
Proof.
  intros H. rewrite scaleServers_spec. simpl.
  set (rs := List.filter is_running (servers w)).
  assert (Hdown : forall w0, no_running_record k (servers w0) ->
    no_running_record k (servers
      (if scale_down_fires cfg rs then
         match List.filter is_idle rs with
         | s :: _ => deleteGameServer env (ServerInfo.id s) w0
         | [] => (Ok tt, w0)
         end
       else (Ok tt, w0)).2)).
  { intros w0 H0. destruct (scale_down_fires cfg rs); [|exact H0].
    destruct (List.filter is_idle rs); [exact H0|].
    now apply no_running_deleteGameServer. }
  destruct (scale_up_fires cfg rs); [|now apply Hdown].
  pose proof (no_running_createGameServer k w H) as Hc.
  destruct (createGameServer env w) as [[s|] w1]; simpl in *; auto.
Qed.

Lemma no_running_run_op k o w :
  is_discovery o = false ->
  no_running_record k (servers w) ->
  no_running_record k (servers (run_op cfg env o w)).
Proof.
  intros Ho H. destruct o; simpl in *; try discriminate.
  - unfold ensureMinimumServers.
    destruct (_ <? _); [now apply no_running_create_loop | exact H].
  - now apply no_running_scaleServers.
  - now apply no_running_createGameServer.
  - now apply no_running_deleteGameServer.
  - unfold request_server.
    destruct (findAvailableServer cfg w) as [s|]; simpl.
    + now apply no_running_mutate_players.
    + pose proof (no_running_createGameServer k w H) as Hc.
      destruct (createGameServer env w) as [[s|] w1]; simpl in *; auto.
  - unfold player_disconnect.
    destruct (players w !! playerId) as [sid|]; [|exact H].
    destruct (truthy sid); [|exact H].
    destruct (map_get sid (servers w)) as [server|]; simpl; [|exact H].
    destruct (0 <? ServerInfo.players server); simpl; [|exact H].
    now apply no_running_mutate_players.
Qed.

Lemma no_running_run_ops k ops w :
  Forall (fun o => is_discovery o = false) ops ->
  no_running_record k (servers w) ->
  no_running_record k (servers (run_ops cfg env ops w)).
Proof.
  intros Hops. revert w. induction Hops as [|o ops Ho Hops IH]; intros w H; simpl.
  - exact H.
  - apply IH. now apply no_running_run_op.
Qed.

Lemma no_running_fresh_record s l :
  List.NoDup (List.map ServerInfo.id l) ->
  ServerInfo.status s = starting ->
  no_running_record (ServerInfo.id s) (map_set s l).
Proof.
  intros Hnd Hs. pose proof (NoDup_map_set s l Hnd) as Hnd'.
  assert (Hg : map_get (ServerInfo.id s) (map_set s l) = Some s)
    by (rewrite map_get_map_set; now rewrite String.eqb_refl).
  apply List.Forall_forall. intros x Hx Hid.
  rewrite <- Hid in Hg. rewrite (map_get_NoDup _ _ Hnd' Hx) in Hg.
  injection Hg as ->. rewrite Hs. discriminate.
Qed.

(** C10.  [createGameServer] registers the new server as [starting].  No
    operation other than discovery makes a record run: an id that has no
    running record keeps having none through placements, releases, ticks,
    top-ups, manual creations and deletions, so that a created server is
    never returned by [findAvailableServer] and never counted in the
    running servers the tick and [ensureMinimumServers] work on. *)
Theorem created_server_stays_starting :
  (forall w s w',
     List.NoDup (List.map ServerInfo.id (servers w)) ->
     createGameServer env w = (Ok s, w') ->
     ServerInfo.status s = starting /\
     map_get (ServerInfo.id s) (servers w') = Some s /\
     no_running_record (ServerInfo.id s) (servers w')) /\
  (forall ops w k,
     Forall (fun o => is_discovery o = false) ops ->
     no_running_record k (servers w) ->
     let w' := run_ops cfg env ops w in
     no_running_record k (servers w') /\
     (forall s, findAvailableServer cfg w' = Some s -> ServerInfo.id s <> k) /\
     (forall s, In s (List.filter is_running (servers w')) -> ServerInfo.id s <> k)).
Proof.
  split.
  - intros w s w' Hnd Hc. rewrite createGameServer_spec in Hc. simpl in Hc.
    destruct (reply_ok env _); [|discriminate].
    injection Hc as <- <-. simpl.
    split; [reflexivity|]. split.
    + rewrite map_get_map_set. simpl. now rewrite String.eqb_refl.
    + now apply (no_running_fresh_record
        (ServerInfo.mk (gen_id env (length (calls w))) None None 0 starting
           (clock env (length (calls w))))).
  - intros ops w k Hops H w'.
    assert (H' : no_running_record k (servers w')) by now apply no_running_run_ops.
    split; [exact H'|].
    unfold no_running_record in H'. rewrite List.Forall_forall in H'.
    split.
    + intros s Hs Hid. destruct (findAvailableServer_In cfg _ _ Hs) as [Hin Ha].
      apply (H' _ Hin Hid).
      unfold is_available, is_running in Ha. apply andb_true_iff in Ha.
      destruct Ha as [Ha _]. now destruct (ServerInfo.status s).
    + intros s Hs Hid. apply List.filter_In in Hs. destruct Hs as [Hin Hr].
      apply (H' _ Hin Hid). unfold is_running in Hr.
      now destruct (ServerInfo.status s).
Qed.

End Starting.

(** ** The theorems at work on concrete registries *)

Lemma scale_up_rule_witness :
  creates (scaleServers cfg_default (env_ok []) (pair_with 40 45)).2
    = creates (pair_with 40 45) /\
  creates (scaleServers cfg_default (env_ok []) (pair_with 85 85)).2
    = S (creates (pair_with 85 85)).
Proof.
  split.
  - destruct (scale_up_rule cfg_default (env_ok []) (pair_with 40 45)) as (_ & _ & H & _).
    apply H; reflexivity.
  - destruct (scale_up_rule cfg_default (env_ok []) (pair_with 85 85)) as (_ & _ & _ & H).
    apply H; reflexivity.
Defined.

Lemma players_never_exceed_capacity_witness :
  Forall (fun s => ServerInfo.players s <= maxPlayersPerServer cfg_default)
    (List.filter is_running
       (servers (run_ops cfg_default (env_ok two_pods) sample_ops constructor))).
Proof.
  apply (players_never_exceed_capacity cfg_default (env_ok two_pods)).
  simpl. lia.
Defined.

Lemma scale_down_rule_witness :
  exists s rest,
    List.filter is_idle (List.filter is_running (servers three_idle)) = s :: rest /\
    deletes (scaleServers cfg_default (env_ok three_pods) three_idle).2
      = deletes three_idle ++ [ServerInfo.id s].
Proof.
  destruct (scale_down_rule cfg_default (env_ok three_pods) three_idle) as (H & _).
  apply H.
  - reflexivity.
  - vm_compute. lia.
  - reflexivity.
Defined.

Lemma startup_reaches_minimum_witness :
  let (r, w) := initialize cfg_default (env_ok []) constructor in
  r = Ok tt /\ creates w = 2%nat.
Proof.
  generalize (startup_reaches_minimum cfg_default (env_ok [])).
  destruct (initialize cfg_default (env_ok []) constructor) as [r w].
  intros (_ & _ & _ & H1 & H2).
  assert (Hr : r = Ok tt) by (apply H1; intros; reflexivity).
  split; [exact Hr | exact (H2 Hr)].
Defined.

Lemma release_idempotent_witness :
  player_disconnect "alice" (player_disconnect "alice" alice_placed)
    = player_disconnect "alice" alice_placed /\
  Forall (fun s => 0 <= ServerInfo.players s)
    (servers (player_disconnect "alice" alice_placed)).
Proof.
  destruct (release_idempotent "alice" alice_placed) as (H1 & _ & _ & H2 & _).
  split; [exact H1|]. apply H2.
  vm_compute. repeat constructor; discriminate.
Defined.

Lemma average_load_quotient_witness :
  averageLoad (List.filter is_running (servers constructor)) = JNaN /\
  scaleServers cfg_default env_down constructor = (Ok tt, constructor).
Proof.
  destruct (average_load_quotient cfg_default env_down constructor) as (_ & H).
  destruct (H eq_refl) as (H1 & _ & _ & H2).
  split; [exact H1 | exact H2].
Defined.

Lemma created_server_stays_starting_witness :
  let w := (createGameServer (env_ok []) constructor).2 in
  let w' := run_ops cfg_default (env_ok []) sample_ops_after_startup w in
  no_running_record "game-server-0" (servers w') /\
  forall s, findAvailableServer cfg_default w' = Some s ->
            ServerInfo.id s <> "game-server-0".
Proof.
  intros w w'.
  destruct (created_server_stays_starting cfg_default (env_ok [])) as (Hc & Hk).
  destruct (Hc constructor _ _ (List.NoDup_nil _) eq_refl) as (_ & _ & Hn).
  destruct (Hk sample_ops_after_startup w "game-server-0") as (H1 & H2 & _).
  - repeat constructor.
  - exact Hn.
  - split; [exact H1 | exact H2].
Defined.

(** ** Invariants of the registry, in general *)

Section Preservation.

Variable cfg : Config.
Variable env : Env.

(** A property of the registry kept by the four ways the code changes it. *)
Variable I : list ServerInfo.t -> Prop.
Hypothesis I_set : forall s l, ServerInfo.players s = 0 -> I l -> I (map_set s l).
Hypothesis I_delete : forall k l, I l -> I (map_delete k l).
Hypothesis I_incr : forall w s,
  I (servers w) -> findAvailableServer cfg w = Some s ->
  I (mutate_players (ServerInfo.id s) 1 (servers w)).
Hypothesis I_decr : forall k l x,
  I l -> map_get k l = Some x -> 0 < ServerInfo.players x ->
  I (mutate_players k (-1) l).

Lemma kept_by_discover items l : I l -> I (List.fold_left discover_pod items l).
Proof.
  revert l. induction items as [|pod items IH]; simpl; intros l Hl; [exact Hl|].
  apply IH. unfold discover_pod. destruct (String.eqb _ _); auto.
Qed.

Lemma kept_by_discoverExistingServers w :
  I (servers w) -> I (servers (discoverExistingServers env w).2).
Proof.
  intros H. rewrite discoverExistingServers_spec. simpl.
  destruct (list_pods env _); simpl; [now apply kept_by_discover | exact H].
Qed.

Lemma kept_by_createGameServer w :
  I (servers w) -> I (servers (createGameServer env w).2).
Proof.
  intros H. rewrite createGameServer_spec. simpl.
  destruct (reply_ok env _); simpl; auto.
Qed.

Lemma kept_by_deleteGameServer k w :
  I (servers w) -> I (servers (deleteGameServer env k w).2).
Proof.
  intros H. rewrite deleteGameServer_spec. simpl.
  destruct (reply_ok env _); simpl; auto.
Qed.

Lemma kept_by_create_loop n w :
  I (servers w) -> I (servers (create_loop env n w).2).
Proof.
  revert w. induction n as [|n IH]; intros w H; simpl; [exact H|].
  unfold mbind, M_bind.
  pose proof (kept_by_createGameServer w H) as Hc.
  destruct (createGameServer env w) as [[s|] w1]; simpl in *; auto.
Qed.

Lemma kept_by_ensureMinimumServers w :
  I (servers w) -> I (servers (ensureMinimumServers cfg env w).2).
Proof.
  intros H. unfold ensureMinimumServers.
  destruct (_ <? _); [now apply kept_by_create_loop | exact H].
Qed.

Lemma kept_by_scaleServers w :
  I (servers w) -> I (servers (scaleServers cfg env w).2).
Proof.
  intros H. rewrite scaleServers_spec. simpl.
  set (rs := List.filter is_running (servers w)).
  assert (Hdown : forall w0, I (servers w0) ->
    I (servers
      (if scale_down_fires cfg rs then
         match List.filter is_idle rs with
         | s :: _ => deleteGameServer env (ServerInfo.id s) w0
         | [] => (Ok tt, w0)
         end
       else (Ok tt, w0)).2)).
  { intros w0 H0. destruct (scale_down_fires cfg rs); [|exact H0].
    destruct (List.filter is_idle rs); [exact H0|].
    now apply kept_by_deleteGameServer. }
  destruct (scale_up_fires cfg rs); [|now apply Hdown].
  pose proof (kept_by_createGameServer w H) as Hc.
  destruct (createGameServer env w) as [[s|] w1]; simpl in *; auto.
Qed.

Lemma kept_by_request_server p w :
  I (servers w) -> I (servers (request_server cfg env p w).2).
Proof.
  intros H. unfold request_server.
  destruct (findAvailableServer cfg w) as [s|] eqn:Hs; simpl; [eauto|].
  pose proof (kept_by_createGameServer w H) as Hc.
  destruct (createGameServer env w) as [[s|] w1]; simpl in *; auto.
Qed.

Lemma kept_by_player_disconnect p w :
  I (servers w) -> I (servers (player_disconnect p w)).
Proof.
  intros H. unfold player_disconnect.
  destruct (players w !! p) as [sid|]; [|exact H].
  destruct (truthy sid); [|exact H].
  destruct (map_get sid (servers w)) as [server|] eqn:Hg; simpl; [|exact H].
  destruct (Z.ltb_spec 0 (ServerInfo.players server)); simpl; eauto.
Qed.

Lemma kept_by_run_op o w : I (servers w) -> I (servers (run_op cfg env o w)).
Proof.
  destruct o; simpl;
    auto using kept_by_discoverExistingServers, kept_by_ensureMinimumServers,
      kept_by_scaleServers, kept_by_createGameServer, kept_by_deleteGameServer,
      kept_by_request_server, kept_by_player_disconnect.
Qed.

Lemma kept_by_run_ops ops w : I (servers w) -> I (servers (run_ops cfg env ops w)).
Proof.
  revert w. induction ops as [|o ops IH]; intros w H; simpl; [exact H|].
  apply IH. now apply kept_by_run_op.
Qed.

Lemma kept_by_initialize w :
  I (servers w) -> I (servers (initialize cfg env w).2).
Proof.
  intros H. unfold initialize, mbind, M_bind.
  rewrite discoverExistingServers_spec.
  apply kept_by_ensureMinimumServers.
  pose proof (kept_by_discoverExistingServers w H) as Hd.
  now rewrite discoverExistingServers_spec in Hd.
Qed.

End Preservation.

(** ** Unique ids, counts that make sense *)

Section Sound.

Variable cfg : Config.
Variable env : Env.

Lemma registry_sound_set s l :
  ServerInfo.players s = 0 -> registry_sound l -> registry_sound (map_set s l).
Proof.
  intros Hs [Hnd Hall]. split; [now apply NoDup_map_set|].
  apply Forall_map_set; [|exact Hall]. split; [lia | auto].
Qed.

Lemma registry_sound_delete k l :
  registry_sound l -> registry_sound (map_delete k l).
Proof.
  intros [Hnd Hall]. split; [now apply NoDup_map_delete | now apply Forall_map_delete].
Qed.

Lemma registry_sound_incr w s :
  registry_sound (servers w) -> findAvailableServer cfg w = Some s ->
  registry_sound (mutate_players (ServerInfo.id s) 1 (servers w)).
Proof.
  intros [Hnd Hall] Hs.
  destruct (findAvailableServer_In cfg _ _ Hs) as [Hin Ha].
  split; [now rewrite ids_mutate_players|].
  apply Forall_mutate_players; [exact Hall|].
  intros x Hx. rewrite (map_get_NoDup _ _ Hnd Hin) in Hx. injection Hx as <-.
  rewrite List.Forall_forall in Hall. destruct (Hall _ Hin) as [H0 _].
  unfold is_available, is_running in Ha. apply andb_true_iff in Ha.
  destruct Ha as [Hr _].
  split; simpl; [lia|]. intros E. rewrite E in Hr. discriminate.
Qed.

Lemma registry_sound_decr k l x :
  registry_sound l -> map_get k l = Some x -> 0 < ServerInfo.players x ->
  registry_sound (mutate_players k (-1) l).
Proof.
  intros [Hnd Hall] Hg Hpos.
  split; [now rewrite ids_mutate_players|].
  apply Forall_mutate_players; [exact Hall|].
  intros y Hy. rewrite Hg in Hy. injection Hy as <-.
  apply map_get_Some in Hg. destruct Hg as [Hin _].
  rewrite List.Forall_forall in Hall. destruct (Hall _ Hin) as [H0 Hst].
  split; simpl; [lia|]. intros E. specialize (Hst E). lia.
Qed.

Lemma registry_sound_run_ops ops :
  registry_sound (servers (run_ops cfg env ops constructor)).
Proof.
  apply (kept_by_run_ops cfg env registry_sound).
  - apply registry_sound_set.
  - apply registry_sound_delete.
  - apply registry_sound_incr.
  - apply registry_sound_decr.
  - split; constructor.
Qed.

(** X1.  Whatever the controller has done since it was built, no two
    records of the registry carry the same id, and looking an id up gives
    the one record that carries it. *)
Theorem ids_stay_unique (ops : list Op) :
  let l := servers (run_ops cfg env ops constructor) in
  List.NoDup (List.map ServerInfo.id l) /\
  forall s, In s l -> map_get (ServerInfo.id s) l = Some s.
Proof.
  intros l. destruct (registry_sound_run_ops ops) as [Hnd _]. fold l in Hnd.
  split; [exact Hnd|]. intros s Hs. now apply map_get_NoDup.
Qed.

(** X2.  Whatever the controller has done since it was built, no record
    has a negative player count, and a server that is still starting has no
    player at all. *)
Theorem counts_stay_sound (ops : list Op) :
  Forall (fun s => 0 <= ServerInfo.players s /\
                   (ServerInfo.status s = starting -> ServerInfo.players s = 0))
         (servers (run_ops cfg env ops constructor)).
Proof. now destruct (registry_sound_run_ops ops) as [_ H]. Qed.

End Sound.

(** ** Invariants kept once discovery is over *)

Section AfterDiscovery.

Variable cfg : Config.
Variable env : Env.

(** A property kept when a [starting] record is stored, when a record is
    deleted and when a count moves. *)
Variable I : list ServerInfo.t -> Prop.
Hypothesis I_create : forall s l,
  ServerInfo.status s = starting -> ServerInfo.players s = 0 -> I l -> I (map_set s l).
Hypothesis I_delete : forall k l, I l -> I (map_delete k l).
Hypothesis I_incr : forall w s,
  I (servers w) -> findAvailableServer cfg w = Some s ->
  I (mutate_players (ServerInfo.id s) 1 (servers w)).
Hypothesis I_decr : forall k l x,
  I l -> map_get k l = Some x -> 0 < ServerInfo.players x ->
  I (mutate_players k (-1) l).

Lemma later_createGameServer w :
  I (servers w) -> I (servers (createGameServer env w).2).
Proof.
  intros H. rewrite createGameServer_spec. simpl.
  destruct (reply_ok env _); simpl; auto.
Qed.

Lemma later_deleteGameServer k w :
  I (servers w) -> I (servers (deleteGameServer env k w).2).
Proof.
  intros H. rewrite deleteGameServer_spec. simpl.
  destruct (reply_ok env _); simpl; auto.
Qed.

Lemma later_create_loop n w :
  I (servers w) -> I (servers (create_loop env n w).2).
Proof.
  revert w. induction n as [|n IH]; intros w H; simpl; [exact H|].
  unfold mbind, M_bind.
  pose proof (later_createGameServer w H) as Hc.
  destruct (createGameServer env w) as [[s|] w1]; simpl in *; auto.
Qed.

Lemma later_ensureMinimumServers w :
  I (servers w) -> I (servers (ensureMinimumServers cfg env w).2).
Proof.
  intros H. unfold ensureMinimumServers.
  destruct (_ <? _); [now apply later_create_loop | exact H].
Qed.

Lemma later_scaleServers w :
  I (servers w) -> I (servers (scaleServers cfg env w).2).
Proof.
  intros H. rewrite scaleServers_spec. simpl.
  set (rs := List.filter is_running (servers w)).
  assert (Hdown : forall w0, I (servers w0) ->
    I (servers
      (if scale_down_fires cfg rs then
         match List.filter is_idle rs with
         | s :: _ => deleteGameServer env (ServerInfo.id s) w0
         | [] => (Ok tt, w0)
         end
       else (Ok tt, w0)).2)).
  { intros w0 H0. destruct (scale_down_fires cfg rs); [|exact H0].
    destruct (List.filter is_idle rs); [exact H0|].
    now apply later_deleteGameServer. }
  destruct (scale_up_fires cfg rs); [|now apply Hdown].
  pose proof (later_createGameServer w H) as Hc.
  destruct (createGameServer env w) as [[s|] w1]; simpl in *; auto.
Qed.

Lemma later_request_server p w :
  I (servers w) -> I (servers (request_server cfg env p w).2).
Proof.
  intros H. unfold request_server.
  destruct (findAvailableServer cfg w) as [s|] eqn:Hs; simpl; [eauto|].
  pose proof (later_createGameServer w H) as Hc.
  destruct (createGameServer env w) as [[s|] w1]; simpl in *; auto.
Qed.

Lemma later_player_disconnect p w :
  I (servers w) -> I (servers (player_disconnect p w)).
Proof.
  intros H. unfold player_disconnect.
  destruct (players w !! p) as [sid|]; [|exact H].
  destruct (truthy sid); [|exact H].
  destruct (map_get sid (servers w)) as [server|] eqn:Hg; simpl; [|exact H].
  destruct (Z.ltb_spec 0 (ServerInfo.players server)); simpl; eauto.
Qed.

Lemma later_run_ops ops w :
  Forall (fun o => is_discovery o = false) ops ->
  I (servers w) -> I (servers (run_ops cfg env ops w)).
Proof.
  intros Hops. revert w.
  induction Hops as [|o ops Ho Hops IH]; intros w H; simpl; [exact H|].
  apply IH. destruct o; simpl in *; try discriminate;
    auto using later_ensureMinimumServers, later_scaleServers,
      later_createGameServer, later_deleteGameServer, later_request_server,
      later_player_disconnect.
Qed.

End AfterDiscovery.

(** ** The pool of running servers only shrinks *)

Section RunningPool.

Variable cfg : Config.
Variable env : Env.

Lemma running_ids_map_set s l :
  ServerInfo.status s = starting ->
  List.map ServerInfo.id (List.filter is_running (map_set s l))
    `sublist_of` List.map ServerInfo.id (List.filter is_running l).
Proof.
  intros Hs. assert (Hr : is_running s = false) by (unfold is_running; now rewrite Hs).
  induction l as [|x l IH]; simpl.
  - rewrite Hr. constructor.
  - destruct (String.eqb _ _); simpl.
    + rewrite Hr. destruct (is_running x); simpl; [now apply sublist_cons | reflexivity].
    + destruct (is_running x); simpl; [now apply sublist_skip | exact IH].
Qed.

Lemma running_ids_map_delete k l :
  List.map ServerInfo.id (List.filter is_running (map_delete k l))
    `sublist_of` List.map ServerInfo.id (List.filter is_running l).
Proof.
  induction l as [|x l IH]; simpl; [constructor|].
  destruct (negb _); simpl; destruct (is_running x); simpl;
    auto using sublist_skip, sublist_cons.
Qed.

Lemma running_ids_mutate_players k d l :
  List.map ServerInfo.id (List.filter is_running (mutate_players k d l))
    = List.map ServerInfo.id (List.filter is_running l).
Proof.
  induction l as [|x l IH]; simpl; [reflexivity|].
  destruct (String.eqb _ _); simpl.
  - unfold is_running at 1. simpl. fold (is_running x).
    now destruct (is_running x).
  - destruct (is_running x); simpl; now rewrite IH.
Qed.

(** X3.  Once discovery is over the pool of running servers only shrinks:
    after any placements, releases, ticks, top-ups, manual creations and
    deletions the ids of the running servers are, in the same order, among
    those that were running before, so that their number has not grown. *)
Theorem running_pool_only_shrinks (ops : list Op) (w : Controller) :
  Forall (fun o => is_discovery o = false) ops ->
  running_ids (run_ops cfg env ops w) `sublist_of` running_ids w /\
  (length (running_ids (run_ops cfg env ops w)) <= length (running_ids w))%nat.
Proof.
  intros Hops.
  assert (H : running_ids (run_ops cfg env ops w) `sublist_of` running_ids w).
  { unfold running_ids.
    apply (later_run_ops cfg env
             (fun l => List.map ServerInfo.id (List.filter is_running l)
                         `sublist_of` running_ids w)).
    - intros s l Hs _ Hl. etransitivity; [now apply running_ids_map_set | exact Hl].
    - intros k l Hl. etransitivity; [apply running_ids_map_delete | exact Hl].
    - intros w0 s Hl _. now rewrite running_ids_mutate_players.
    - intros k l x Hl _ _. now rewrite running_ids_mutate_players.
    - exact Hops.
    - reflexivity. }
  split; [exact H | now apply sublist_length].
Qed.

End RunningPool.

Lemma running_pool_only_shrinks_witness :
  (length (running_ids
     (run_ops cfg_default (env_ok []) sample_ops_after_startup two_discovered))
   <= length (running_ids two_discovered))%nat.
Proof.
  apply (running_pool_only_shrinks cfg_default (env_ok []) sample_ops_after_startup
           two_discovered).
  repeat constructor.
Defined.

(** ** Discovery: what is registered *)

Section Discovery.

Variable env : Env.

Lemma find_none_all {A} (f : A -> bool) (l : list A) :
  (forall x, In x l -> f x = false) -> List.find f l = None.
Proof.
  induction l as [|x l IH]; simpl; intros H; [reflexivity|].
  rewrite (H x) by now left. apply IH. intros y Hy. apply H. now right.
Qed.

Lemma pods_same_name items p q :
  List.NoDup (List.map metadata_name items) ->
  In p items -> In q items -> metadata_name p = metadata_name q -> p = q.
Proof.
  induction items as [|x items IH]; simpl; intros Hnd Hp Hq E; [easy|].
  inversion Hnd as [|? ? Hx Hnd']; subst.
  destruct Hp as [->|Hp], Hq as [->|Hq]; auto.
  - elim Hx. rewrite E. now apply in_map.
  - elim Hx. rewrite <- E. now apply in_map.
Qed.

(** A lookup after the loop of discovery: the record of the running pod of
    that name if there is one, the former record otherwise. *)
Lemma map_get_discover items l k :
  List.NoDup (List.map metadata_name items) ->
  map_get k (List.fold_left discover_pod items l) =
    match List.find (fun pod => pod_is_running pod && String.eqb (metadata_name pod) k) items with
    | Some pod => Some (discovered pod)
    | None => map_get k l
    end.
Proof.
  revert l. induction items as [|pod items IH]; simpl; intros l Hnd; [reflexivity|].
  inversion Hnd as [|? ? Hp Hnd']; subst.
  rewrite IH by exact Hnd'.
  destruct (List.find _ items) as [q|] eqn:Hq.
  - apply List.find_some in Hq. destruct Hq as [Hin Hq].
    apply andb_true_iff in Hq. destruct Hq as [_ Hq]. apply String.eqb_eq in Hq.
    destruct (String.eqb_spec (metadata_name pod) k) as [E|_].
    + elim Hp. rewrite E, <- Hq. now apply in_map.
    + now rewrite andb_false_r.
  - unfold discover_pod. fold (pod_is_running pod).
    destruct (pod_is_running pod); simpl; [|reflexivity].
    rewrite map_get_map_set. simpl.
    now destruct (String.eqb (metadata_name pod) k).
Qed.

(** X4.  When the platform lists pods of distinct names, discovery stores
    under the name of each pod in phase [Running] a running record without
    players, with the address and creation time of the pod (a record already
    there under that name is replaced, its count is lost), and leaves every
    other key and every session as they were. *)
Theorem discovery_registers_running_pods (w : Controller) (items : list Pod) :
  list_pods env (length (calls w)) = Some items ->
  List.NoDup (List.map metadata_name items) ->
  let w' := (discoverExistingServers env w).2 in
  (forall pod, In pod items -> status_phase pod = "Running" ->
     map_get (metadata_name pod) (servers w') =
       Some (ServerInfo.mk (metadata_name pod) (status_podIP pod) (Some 3000) 0 running
               (metadata_creationTimestamp pod))) /\
  (forall k, (forall pod, In pod items -> status_phase pod = "Running" ->
                          metadata_name pod <> k) ->
     map_get k (servers w') = map_get k (servers w)) /\
  players w' = players w.
Proof.
  intros Hl Hnd w'. subst w'. rewrite discoverExistingServers_spec, Hl. simpl.
  split; [|split; [|reflexivity]].
  - intros pod Hin Hrun. rewrite map_get_discover by exact Hnd.
    destruct (List.find _ items) as [q|] eqn:Hq.
    + apply List.find_some in Hq. destruct Hq as [Hqin Hq].
      apply andb_true_iff in Hq. destruct Hq as [_ Hq]. apply String.eqb_eq in Hq.
      now rewrite (pods_same_name items q pod Hnd Hqin Hin Hq).
    + exfalso. apply (List.find_none _ _ Hq) in Hin.
      unfold pod_is_running in Hin. rewrite Hrun in Hin. simpl in Hin.
      now rewrite String.eqb_refl in Hin.
  - intros k Hk. rewrite map_get_discover by exact Hnd.
    rewrite find_none_all; [reflexivity|].
    intros pod Hin. unfold pod_is_running.
    destruct (String.eqb_spec (status_phase pod) "Running") as [E|_]; [|reflexivity].
    simpl. apply String.eqb_neq. now apply Hk.
Qed.

End Discovery.

Lemma discovery_registers_running_pods_witness :
  map_get "gs-2"
    (servers (discoverExistingServers (env_ok mixed_pods) alice_placed).2)
    = Some (ServerInfo.mk "gs-2" (Some "10.0.0.1") (Some 3000) 0 running 3000) /\
  map_get "gs-1"
    (servers (discoverExistingServers (env_ok mixed_pods) alice_placed).2)
    = map_get "gs-1" (servers alice_placed).
Proof.
  destruct (discovery_registers_running_pods (env_ok mixed_pods) alice_placed mixed_pods)
    as (H1 & H2 & _).
  - reflexivity.
  - vm_compute. repeat constructor; simpl; intuition discriminate.
  - split.
    + apply (H1 (pod "gs-2" "Running" 3000)); [right; right; left|]; reflexivity.
    + apply H2. intros q [<-|[<-|[<-|[]]]]; simpl; discriminate.
Defined.

(** ** The routes [POST /servers] and [DELETE /servers/:id] *)

Section Routes.

Variable env : Env.

(** X5.  [DELETE /servers/:id] always answers that the server was deleted.
    It issues one delete call for the id as given, known or not; when the
    platform accepts it the id is no longer in the registry, when it refuses
    the registry is unchanged and the answer is the same.  Sessions bound to
    the server are left in place. *)
Theorem delete_route_always_succeeds (id : string) (a : App) :
  let k := length (calls (controller a)) in
  let (res, a') := delete_servers env id a in
  res = res_deleted ("Server " +:+ id +:+ " deleted") /\
  calls (controller a') = calls (controller a) ++ [deleteNamespacedDeployment id] /\
  (reply_ok env k = true ->
     map_get id (servers (controller a')) = None /\
     forall k', k' <> id ->
       map_get k' (servers (controller a')) = map_get k' (servers (controller a))) /\
  (reply_ok env k = false -> servers (controller a') = servers (controller a)) /\
  players (controller a') = players (controller a) /\
  gameServerMetrics a' = gameServerMetrics a.
Proof.
  unfold delete_servers. rewrite deleteGameServer_spec. simpl.
  split; [reflexivity|].
  destruct (reply_ok env (length (calls (controller a)))); simpl.
  - repeat split; try discriminate.
    + rewrite map_get_map_delete. now rewrite String.eqb_refl.
    + intros k' Hk. rewrite map_get_map_delete.
      destruct (String.eqb_spec id k'); congruence.
  - repeat split; discriminate.
Qed.

Lemma map_delete_map_set_fresh s l :
  ~ In (ServerInfo.id s) (List.map ServerInfo.id l) ->
  map_delete (ServerInfo.id s) (map_set s l) = l.
Proof.
  intros H. rewrite map_set_absent by exact H.
  unfold map_delete. rewrite List.filter_app. simpl.
  rewrite String.eqb_refl. simpl. rewrite app_nil_r.
  now apply map_delete_absent.
Qed.

(** X6.  Creating a server through [POST /servers] and deleting it through
    [DELETE /servers/:id] with the id that was answered brings the registry
    back to what it was, provided the generated id was not in use; the log
    has grown by the two calls. *)
Theorem post_then_delete_restores (a a1 : App) (s : ServerInfo.t) :
  ~ In (gen_id env (length (calls (controller a))))
       (List.map ServerInfo.id (servers (controller a))) ->
  post_servers env a = (res_created s, a1) ->
  reply_ok env (S (length (calls (controller a)))) = true ->
  let a2 := (delete_servers env (ServerInfo.id s) a1).2 in
  servers (controller a2) = servers (controller a) /\
  players (controller a2) = players (controller a) /\
  calls (controller a2) =
    calls (controller a) ++ [createNamespacedDeployment (ServerInfo.id s);
                             deleteNamespacedDeployment (ServerInfo.id s)].
Proof.
  intros Hfresh Hpost Hok.
  unfold post_servers in Hpost. rewrite createGameServer_spec in Hpost. simpl in Hpost.
  destruct (reply_ok env (length (calls (controller a)))); [|discriminate].
  injection Hpost as <- <-.
  unfold delete_servers. rewrite deleteGameServer_spec. simpl.
  rewrite length_app. simpl. rewrite Nat.add_1_r, Hok. simpl.
  split; [|split; [reflexivity | now rewrite <- app_assoc]].
  now apply (map_delete_map_set_fresh
    (ServerInfo.mk (gen_id env (length (calls (controller a)))) None None 0 starting
       (clock env (length (calls (controller a)))))).
Qed.

End Routes.

(** ** Placement and release undo each other *)

Section RoundTrip.

Variable cfg : Config.
Variable env : Env.

Lemma add_players_add_players d d' s :
  add_players d' (add_players d s) = add_players (d + d') s.
Proof. unfold add_players. simpl. f_equal. lia. Qed.

Lemma add_players_0 s : add_players 0 s = s.
Proof. destruct s. unfold add_players. simpl. f_equal. lia. Qed.

Lemma mutate_players_twice k d d' l :
  mutate_players k d' (mutate_players k d l) = mutate_players k (d + d') l.
Proof.
  induction l as [|x l IH]; simpl; [reflexivity|].
  destruct (String.eqb (ServerInfo.id x) k) eqn:E; simpl; rewrite E.
  - now rewrite add_players_add_players.
  - now rewrite IH.
Qed.

Lemma mutate_players_0 k l : mutate_players k 0 l = l.
Proof.
  induction l as [|x l IH]; simpl; [reflexivity|].
  destruct (String.eqb _ _); [now rewrite add_players_0 | now rewrite IH].
Qed.

Lemma truthy_nonempty s : s <> "" -> truthy s = true.
Proof. destruct s; [congruence | reflexivity]. Qed.

(** X7.  A player without a session who is placed on a server and then
    disconnects leaves the controller exactly as it was: same registry, same
    sessions, no call.  This needs ids that are unique and counts that are
    not negative, which the controller maintains, and a server id that is
    not the empty string, which a release would take for no session. *)
Theorem placement_then_release_restores (p : string) (w : Controller) (s : ServerInfo.t) :
  registry_sound (servers w) ->
  players w !! p = None ->
  findAvailableServer cfg w = Some s ->
  ServerInfo.id s <> "" ->
  player_disconnect p (request_server cfg env p w).2 = w.
Proof.
  intros [Hnd Hall] Hp Hs Hid.
  destruct (findAvailableServer_In cfg _ _ Hs) as [Hin _].
  rewrite List.Forall_forall in Hall. destruct (Hall _ Hin) as [H0 _].
  unfold request_server. rewrite Hs. simpl.
  unfold player_disconnect. simpl.
  rewrite lookup_insert_eq, truthy_nonempty by exact Hid.
  rewrite map_get_mutate_players, String.eqb_refl, (map_get_NoDup _ _ Hnd Hin).
  simpl. destruct (Z.ltb_spec 0 (ServerInfo.players s + 1)) as [_|]; [|lia].
  unfold set_players, set_servers. simpl.
  rewrite mutate_players_twice, mutate_players_0.
  rewrite delete_insert_eq, delete_id by exact Hp.
  now destruct w.
Qed.

End RoundTrip.

Lemma delete_route_always_succeeds_witness :
  let (res, a') := delete_servers env_down "no-such-server" new_app in
  res = res_deleted "Server no-such-server deleted" /\
  servers (controller a') = servers (controller new_app).
Proof.
  generalize (delete_route_always_succeeds env_down "no-such-server" new_app).
  destruct (delete_servers env_down "no-such-server" new_app) as [res a'].
  intros (H1 & _ & _ & H2 & _).
  split; [exact H1 | apply H2; reflexivity].
Defined.

Lemma post_then_delete_restores_witness :
  servers (controller
    (delete_servers (env_ok []) "game-server-0" (post_servers (env_ok []) new_app).2).2)
  = servers (controller new_app).
Proof.
  apply (post_then_delete_restores (env_ok []) new_app
           (post_servers (env_ok []) new_app).2
           (ServerInfo.mk "game-server-0" None None 0 starting 5000)).
  - simpl. tauto.
  - reflexivity.
  - reflexivity.
Defined.

Lemma placement_then_release_restores_witness :
  player_disconnect "carol"
    (request_server cfg_default (env_ok two_pods) "carol" alice_placed).2
  = alice_placed.
Proof.
  apply (placement_then_release_restores cfg_default (env_ok two_pods) "carol" alice_placed
           (discovered (pod "game-server-a" "Running" 1000))).
  - split.
    + vm_compute. repeat constructor; simpl; intuition discriminate.
    + vm_compute. repeat constructor; simpl; (lia || discriminate).
  - vm_compute. reflexivity.
  - vm_compute. reflexivity.
  - discriminate.
Defined.

(** ** One tick, call by call *)

Section Tick.

Variable cfg : Config.
Variable env : Env.

Lemma createGameServer_calls w :
  calls (createGameServer env w).2 =
    calls w ++ [createNamespacedDeployment (gen_id env (length (calls w)))].
Proof.
  rewrite createGameServer_spec. simpl. now destruct (reply_ok env _).
Qed.

Lemma deleteGameServer_calls k w :
  calls (deleteGameServer env k w).2 = calls w ++ [deleteNamespacedDeployment k].
Proof.
  rewrite deleteGameServer_spec. simpl. now destruct (reply_ok env _).
Qed.

(** The second half of the tick: its result, its call, the sessions. *)
Lemma scale_down_trace rs w0 :
  let down := if scale_down_fires cfg rs then
                match List.filter is_idle rs with
                | s :: _ => [deleteNamespacedDeployment (ServerInfo.id s)]
                | [] => []
                end
              else [] in
  let (r, w') := if scale_down_fires cfg rs then
                   match List.filter is_idle rs with
                   | s :: _ => deleteGameServer env (ServerInfo.id s) w0
                   | [] => (Ok tt, w0)
                   end
                 else (Ok tt, w0) in
  r = Ok tt /\ calls w' = calls w0 ++ down /\ players w' = players w0.
Proof.
  destruct (scale_down_fires cfg rs); simpl;
    [|now rewrite app_nil_r].
  destruct (List.filter is_idle rs) as [|s rest]; simpl;
    [now rewrite app_nil_r|].
  rewrite deleteGameServer_spec. simpl.
  now destruct (reply_ok env _).
Qed.

(** X8.  A tick adds to the log at most one create call followed by at most
    one delete call, as the two rules decide; it fails exactly when its
    create call is refused, in which case nothing follows, and never because
    of a refused delete.  The server whose deletion it requests is a running
    record of the registry without players. *)
Theorem tick_trace (w : Controller) :
  let rs := List.filter is_running (servers w) in
  let (r, w') := scaleServers cfg env w in
  calls w' = calls w ++ tick_calls cfg env w /\
  (r = Throw <->
     scale_up_fires cfg rs = true /\ reply_ok env (length (calls w)) = false) /\
  (length (tick_calls cfg env w) <= 2)%nat /\
  (forall k, In (deleteNamespacedDeployment k) (tick_calls cfg env w) ->
     exists s, In s (servers w) /\ ServerInfo.id s = k /\
               ServerInfo.status s = running /\ ServerInfo.players s = 0) /\
  players w' = players w.
Proof.
  intros rs.
  assert (Hlen : (length (tick_calls cfg env w) <= 2)%nat).
  { unfold tick_calls. fold rs. rewrite length_app.
    destruct (scale_up_fires cfg rs); destruct (reply_ok env _); simpl;
      destruct (scale_down_fires cfg rs); simpl; try lia;
      destruct (List.filter is_idle rs); simpl; lia. }
  assert (Htarget : forall k, In (deleteNamespacedDeployment k) (tick_calls cfg env w) ->
            exists s, In s (servers w) /\ ServerInfo.id s = k /\
                      ServerInfo.status s = running /\ ServerInfo.players s = 0).
  { intros k Hk. unfold tick_calls in Hk. fold rs in Hk.
    apply in_app_or in Hk. destruct Hk as [Hk|Hk].
    - destruct (scale_up_fires cfg rs); simpl in Hk; [destruct Hk as [Hk|[]]|easy].
      discriminate.
    - destruct (scale_up_fires cfg rs && negb (reply_ok env _)); [easy|].
      destruct (scale_down_fires cfg rs); [|easy].
      destruct (List.filter is_idle rs) as [|s rest] eqn:E; [easy|].
      destruct Hk as [Hk|[]]. injection Hk as <-. exists s.
      assert (Hin : In s (List.filter is_idle rs)) by (rewrite E; now left).
      apply List.filter_In in Hin. destruct Hin as [Hin Hidle].
      apply List.filter_In in Hin. destruct Hin as [Hin Hrun].
      repeat split; auto.
      + unfold is_running in Hrun. now destruct (ServerInfo.status s).
      + now apply Z.eqb_eq. }
  destruct (scaleServers cfg env w) as [r w'] eqn:Hs.
  cut (calls w' = calls w ++ tick_calls cfg env w /\
       (r = Throw <->
          scale_up_fires cfg rs = true /\ reply_ok env (length (calls w)) = false) /\
       players w' = players w); [tauto|].
  clear Hlen Htarget. revert Hs.
  rewrite scaleServers_spec. simpl. fold rs.
  unfold tick_calls. fold rs.
  destruct (scale_up_fires cfg rs) eqn:Hup; simpl.
  - pose proof (createGameServer_calls w) as Hc.
    pose proof (createGameServer_players env w) as Hp.
    pose proof (createGameServer_facts env w) as Hf.
    destruct (createGameServer env w) as [[s0|] w1]; simpl in *;
      destruct Hf as (Hr & _); rewrite Hr; simpl.
    + pose proof (scale_down_trace rs w1) as Hd. simpl in Hd.
      destruct (if scale_down_fires cfg rs then _ else _) as [r0 w0].
      destruct Hd as (-> & Hcalls & Hpl).
      intros Hs. injection Hs as <- <-.
      rewrite Hcalls, Hc, <- app_assoc, Hpl, Hp. simpl.
      split; [reflexivity|]. split; [|reflexivity].
      split; [discriminate | intros [_ H]; discriminate].
    + intros Hs. injection Hs as <- <-.
      rewrite Hc, Hp. split; [reflexivity|]. split; [tauto | reflexivity].
  - pose proof (scale_down_trace rs w) as Hd. simpl in Hd.
    destruct (if scale_down_fires cfg rs then _ else _) as [r0 w0].
    destruct Hd as (-> & Hcalls & Hpl).
    intros Hs. injection Hs as <- <-.
    rewrite Hcalls, Hpl.
    split; [reflexivity|]. split; [|reflexivity].
    split; [discriminate | intros [H _]; discriminate].
Qed.

Lemma running_length_map_delete k l :
  List.NoDup (List.map ServerInfo.id l) ->
  (length (List.filter is_running l)
   <= S (length (List.filter is_running (map_delete k l))))%nat.
Proof.
  induction l as [|x l IH]; simpl; intros H; [lia|].
  inversion H as [|? ? Hx Hnd]; subst.
  destruct (String.eqb_spec (ServerInfo.id x) k) as [E|N]; simpl.
  - subst k. rewrite map_delete_absent by exact Hx.
    destruct (is_running x); simpl; lia.
  - specialize (IH Hnd). destruct (is_running x); simpl; lia.
Qed.

Lemma running_map_set_fresh s l :
  ServerInfo.status s = starting ->
  ~ In (ServerInfo.id s) (List.map ServerInfo.id l) ->
  List.filter is_running (map_set s l) = List.filter is_running l.
Proof.
  intros Hs Hfresh. rewrite map_set_absent by exact Hfresh.
  rewrite List.filter_app. simpl. unfold is_running at 2. rewrite Hs. simpl.
  apply app_nil_r.
Qed.

(** X9.  A tick never takes the pool of running servers below
    [minServers]: if at least [minServers] servers were running they still
    are, and otherwise none has gone.  This holds when the id drawn for a
    new server is not one of the registry. *)
Theorem tick_respects_minimum (w : Controller) :
  List.NoDup (List.map ServerInfo.id (servers w)) ->
  ~ In (gen_id env (length (calls w))) (List.map ServerInfo.id (servers w)) ->
  let n := Z.of_nat (length (List.filter is_running (servers w))) in
  let n' := Z.of_nat (length (List.filter is_running (servers (scaleServers cfg env w).2))) in
  Z.min n (minServers cfg) <= n'.
Proof.
  intros Hnd Hfresh. simpl.
  rewrite scaleServers_spec. simpl.
  set (rs := List.filter is_running (servers w)).
  assert (Hdown : forall w0,
    List.NoDup (List.map ServerInfo.id (servers w0)) ->
    List.filter is_running (servers w0) = rs ->
    Z.min (Z.of_nat (length rs)) (minServers cfg) <=
    Z.of_nat (length (List.filter is_running (servers
      (if scale_down_fires cfg rs then
         match List.filter is_idle rs with
         | s :: _ => deleteGameServer env (ServerInfo.id s) w0
         | [] => (Ok tt, w0)
         end
       else (Ok tt, w0)).2)))).
  { intros w0 Hnd0 E.
    destruct (scale_down_fires cfg rs) eqn:Hd; simpl; [|rewrite E; lia].
    destruct (List.filter is_idle rs) as [|s rest]; simpl; [rewrite E; lia|].
    apply scale_down_fires_iff in Hd. destruct Hd as [_ Hd].
    rewrite deleteGameServer_spec. simpl.
    destruct (reply_ok env _); simpl; [|rewrite E; lia].
    pose proof (running_length_map_delete (ServerInfo.id s) _ Hnd0) as H.
    rewrite E in H. lia. }
  destruct (scale_up_fires cfg rs); [|now apply Hdown].
  rewrite createGameServer_spec. simpl.
  destruct (reply_ok env (length (calls w))); simpl.
  - apply Hdown; simpl.
    + now apply NoDup_map_set.
    + now apply running_map_set_fresh.
  - fold rs. lia.
Qed.

End Tick.

Lemma tick_trace_witness :
  let (r, w') := scaleServers cfg_small env_create_fails nine_full_two_idle in
  r = Throw /\ players w' = players nine_full_two_idle.
Proof.
  generalize (tick_trace cfg_small env_create_fails nine_full_two_idle).
  destruct (scaleServers cfg_small env_create_fails nine_full_two_idle) as [r w'].
  intros (_ & H1 & _ & _ & H2).
  split; [apply H1; split; reflexivity | exact H2].
Defined.

Lemma tick_respects_minimum_witness :
  Z.min (Z.of_nat (length (List.filter is_running (servers three_idle))))
        (minServers cfg_default)
  <= Z.of_nat (length (List.filter is_running
       (servers (scaleServers cfg_default (env_ok three_pods) three_idle).2))).
Proof.
  apply (tick_respects_minimum cfg_default (env_ok three_pods) three_idle).
  - vm_compute. repeat constructor; simpl; intuition discriminate.
  - vm_compute. intuition discriminate.
Defined.

(** ** Placement keeps the load even *)

Section Balance.

Variable cfg : Config.
Variable env : Env.

Lemma In_map_set x s l : In x (map_set s l) -> x = s \/ In x l.
Proof.
  induction l as [|y l IH]; simpl.
  - intros [<-|[]]. now left.
  - destruct (String.eqb _ _); simpl.
    + intros [<-|H]; auto.
    + intros [<-|H]; auto. destruct (IH H); auto.
Qed.

Lemma In_mutate_players y k d l :
  In y (mutate_players k d l) ->
  In y l \/ exists x, map_get k l = Some x /\ y = add_players d x.
Proof.
  induction l as [|x l IH]; simpl; [tauto|].
  destruct (String.eqb (ServerInfo.id x) k); simpl.
  - intros [<-|H]; [right; eauto | auto].
  - intros [<-|H]; [auto|]. destruct (IH H) as [?|?]; auto.
Qed.

Lemma evenly_loaded_create s l :
  ServerInfo.status s = starting -> ServerInfo.players s = 0 ->
  evenly_loaded l -> evenly_loaded (map_set s l).
Proof.
  intros Hs _ [Hnd Hb]. split; [now apply NoDup_map_set|].
  assert (Hr : is_running s = false) by (unfold is_running; now rewrite Hs).
  intros a b Ha Hb' Ra Rb.
  apply In_map_set in Ha. apply In_map_set in Hb'.
  destruct Ha as [->|Ha]; [congruence|].
  destruct Hb' as [->|Hb']; [congruence|].
  now apply Hb.
Qed.

Lemma evenly_loaded_delete k l : evenly_loaded l -> evenly_loaded (map_delete k l).
Proof.
  intros [Hnd Hb]. split; [now apply NoDup_map_delete|].
  intros a b Ha Hb' Ra Rb.
  unfold map_delete in Ha, Hb'.
  apply List.filter_In in Ha. apply List.filter_In in Hb'.
  apply Hb; tauto.
Qed.

Lemma evenly_loaded_incr w s :
  evenly_loaded (servers w) -> findAvailableServer cfg w = Some s ->
  evenly_loaded (mutate_players (ServerInfo.id s) 1 (servers w)).
Proof.
  intros [Hnd Hb] Hs. split; [now rewrite ids_mutate_players|].
  destruct (findAvailableServer_In cfg _ _ Hs) as [Hin Ha].
  assert (Hrun : is_running s = true /\ ServerInfo.players s < maxPlayersPerServer cfg).
  { unfold is_available in Ha. apply andb_true_iff in Ha.
    destruct Ha as [? Ha]. now apply Z.ltb_lt in Ha. }
  destruct Hrun as [Hrun Hroom].
  assert (Hmin : forall x, In x (servers w) -> is_running x = true ->
                           ServerInfo.players s <= ServerInfo.players x).
  { intros x Hx Rx. pose proof (findAvailableServer_spec cfg w) as Hsp.
    rewrite Hs in Hsp. destruct Hsp as (l1 & l2 & E & _ & H1 & H2).
    destruct (Z.ltb_spec (ServerInfo.players x) (maxPlayersPerServer cfg)) as [Hlt|Hge];
      [|lia].
    assert (Hav : is_available cfg x = true).
    { unfold is_available. rewrite Rx. now apply Z.ltb_lt. }
    rewrite E in Hx. apply in_app_or in Hx.
    rewrite List.Forall_forall in H1, H2.
    destruct Hx as [Hx|[<-|Hx]]; [specialize (H1 _ Hx Hav) | | specialize (H2 _ Hx Hav)]; lia. }
  assert (Hnew : forall y, In y (mutate_players (ServerInfo.id s) 1 (servers w)) ->
                           In y (servers w) \/ y = add_players 1 s).
  { intros y Hy. apply In_mutate_players in Hy.
    destruct Hy as [?|(x & Hx & ->)]; [now left|].
    rewrite (map_get_NoDup _ _ Hnd Hin) in Hx. injection Hx as <-. now right. }
  intros a b Ha' Hb' Ra Rb.
  destruct (Hnew _ Ha') as [Hao| ->]; destruct (Hnew _ Hb') as [Hbo| ->]; simpl.
  - now apply Hb.
  - specialize (Hb a s Hao Hin Ra Hrun). lia.
  - specialize (Hmin b Hbo Rb). lia.
  - lia.
Qed.

(** X10.  Placement keeps the load even: if the player counts of the
    running servers differ by at most one, they still do after any
    placements, ticks, top-ups, manual creations and deletions (releases and
    discovery are what can make them uneven).  Ids are assumed unique, as
    the controller keeps them. *)
Theorem placement_keeps_balance (ops : list Op) (w : Controller) :
  Forall (fun o => keeps_balance o = true) ops ->
  List.NoDup (List.map ServerInfo.id (servers w)) ->
  balanced (servers w) ->
  balanced (servers (run_ops cfg env ops w)).
Proof.
  intros Hops Hnd Hb.
  assert (H : evenly_loaded (servers (run_ops cfg env ops w))).
  { assert (H0 : evenly_loaded (servers w)) by now split.
    clear Hnd Hb. revert w H0.
    induction Hops as [|o ops Ho Hops IH]; intros w H0; simpl; [exact H0|].
    apply IH. destruct o; simpl in *; try discriminate.
    - apply (later_ensureMinimumServers cfg env evenly_loaded evenly_loaded_create _ H0).
    - apply (later_scaleServers cfg env evenly_loaded evenly_loaded_create
               evenly_loaded_delete _ H0).
    - apply (later_createGameServer env evenly_loaded evenly_loaded_create _ H0).
    - apply (later_deleteGameServer env evenly_loaded evenly_loaded_delete _ _ H0).
    - apply (later_request_server cfg env evenly_loaded evenly_loaded_create
               evenly_loaded_incr _ _ H0). }
  now destruct H.
Qed.

End Balance.

Lemma placement_keeps_balance_witness :
  balanced (servers (run_ops cfg_default (env_ok two_pods)
    [op_request_server "alice"; op_request_server "bob"; op_request_server "carol";
     op_scaleServers; op_post_servers]
    two_discovered)).
Proof.
  apply (placement_keeps_balance cfg_default (env_ok two_pods)).
  - repeat constructor.
  - vm_compute. repeat constructor; simpl; intuition discriminate.
  - intros a b [<-|[<-|[]]] [<-|[<-|[]]] _ _; simpl; lia.
Defined.

(** ** The metrics *)

Section MetricsFacts.

Variable cfg : Config.
Variable env : Env.

Lemma run_event_counters e a :
  let m := gameServerMetrics a in
  let m' := gameServerMetrics (run_event cfg env e a) in
  serverRequests_POST_success m' =
    (serverRequests_POST_success m + (if is_post e then 1 else 0))%nat /\
  (serverRequests_POST_error m <= serverRequests_POST_error m'
   <= serverRequests_POST_error m + (if is_post e then 1 else 0))%nat.
Proof.
  destruct e; simpl; try lia.
  - unfold health_check.
    destruct (scaleServers cfg env (controller a)) as [[[]|] w]; simpl; lia.
  - unfold post_servers.
    destruct (createGameServer env (controller a)) as [[s|] w]; simpl; lia.
  - unfold delete_servers.
    destruct (deleteGameServer env id (controller a)) as [[[]|] w]; simpl; lia.
Qed.

(** X11.  The counter labelled [POST/success] counts the requests to
    [POST /servers], not the servers created: it goes up by one on every
    such request and on nothing else, while the counter labelled
    [POST/error] goes up, too, when the create call is refused.  So the
    first is the number of requests and the second never exceeds it. *)
Theorem post_success_counts_requests (es : list Event) :
  let m := gameServerMetrics (run_events cfg env es new_app) in
  serverRequests_POST_success m = length (List.filter is_post es) /\
  (serverRequests_POST_error m <= serverRequests_POST_success m)%nat /\
  (forall a, reply_ok env (length (calls (controller a))) = false ->
     let (res, a') := post_servers env a in
     res = res_status_500 /\
     serverRequests_POST_success (gameServerMetrics a') =
       S (serverRequests_POST_success (gameServerMetrics a)) /\
     serverRequests_POST_error (gameServerMetrics a') =
       S (serverRequests_POST_error (gameServerMetrics a))).
Proof.
  assert (H : forall a,
    let m := gameServerMetrics a in
    let m' := gameServerMetrics (run_events cfg env es a) in
    serverRequests_POST_success m' =
      (serverRequests_POST_success m + length (List.filter is_post es))%nat /\
    (serverRequests_POST_error m' <=
       serverRequests_POST_error m + length (List.filter is_post es))%nat).
  { induction es as [|e es IH]; intros a; simpl; [lia|].
    destruct (IH (run_event cfg env e a)) as [H1 H2].
    destruct (run_event_counters e a) as [H3 H4].
    simpl in *. destruct (is_post e); simpl; lia. }
  destruct (H new_app) as [H1 H2]. simpl in *.
  split; [exact H1|]. split; [lia|].
  intros a Hr. unfold post_servers. rewrite createGameServer_spec. simpl.
  rewrite Hr. simpl. auto.
Qed.

Lemma initialize_as_ops w :
  (initialize cfg env w).2 =
    run_ops cfg env [op_discoverExistingServers; op_ensureMinimumServers] w.
Proof.
  unfold initialize, mbind, M_bind. simpl.
  now rewrite discoverExistingServers_spec.
Qed.

Lemma total_within_capacity l acc :
  Forall (within_capacity cfg) l ->
  acc <= List.fold_left (fun sum server => sum + ServerInfo.players server) l acc
      <= acc + Z.of_nat (length l) * maxPlayersPerServer cfg.
Proof.
  intros H. revert acc. induction H as [|x l Hx Hl IH]; intros acc; simpl; [lia|].
  specialize (IH (acc + ServerInfo.players x)). unfold within_capacity in Hx. lia.
Qed.

Lemma Forall_filter_keep (P : ServerInfo.t -> Prop) f l :
  Forall P l -> Forall P (List.filter f l).
Proof.
  induction 1 as [|x l Hx Hl IH]; simpl; [constructor|].
  destruct (f x); [constructor|]; auto.
Qed.

(** X12.  The two gauges always make sense together: whatever has happened
    to the process since it was loaded, the number of player connections it
    exports lies between zero and the number of active servers it exports
    times the capacity of a server (the capacity being non-negative). *)
Theorem gauges_within_capacity (es : list Event) :
  0 <= maxPlayersPerServer cfg ->
  let m := gameServerMetrics (run_events cfg env es new_app) in
  0 <= activeServers m /\
  0 <= playerConnections m <= activeServers m * maxPlayersPerServer cfg.
Proof.
  intros Hcap.
  set (J := fun a : App =>
    registry_ok cfg (servers (controller a)) /\
    0 <= activeServers (gameServerMetrics a) /\
    0 <= playerConnections (gameServerMetrics a)
      <= activeServers (gameServerMetrics a) * maxPlayersPerServer cfg).
  assert (Hupd : forall a, registry_ok cfg (servers (controller a)) -> J (updateMetrics a)).
  { intros a Hok. split; [exact Hok|]. simpl.
    destruct Hok as [_ Hall].
    pose proof (total_within_capacity _ 0
      (Forall_filter_keep _ is_running _ Hall)) as H.
    lia. }
  assert (Hstep : forall e a, J a -> J (run_event cfg env e a)).
  { intros e a (Hok & Hg). destruct e; simpl.
    - split; [|exact Hg]. simpl. rewrite initialize_as_ops.
      now apply registry_ok_run_ops.
    - unfold health_check.
      pose proof (registry_ok_scaleServers cfg env Hcap _ Hok) as Hs.
      destruct (scaleServers cfg env (controller a)) as [[[]|] w]; simpl in *.
      + now apply Hupd.
      + now split.
    - now apply Hupd.
    - now split.
    - unfold post_servers.
      pose proof (registry_ok_createGameServer cfg env Hcap _ Hok) as Hs.
      destruct (createGameServer env (controller a)) as [[s|] w]; simpl in *;
        now split.
    - unfold delete_servers.
      pose proof (registry_ok_deleteGameServer cfg env id _ Hok) as Hs.
      destruct (deleteGameServer env id (controller a)) as [[[]|] w]; simpl in *;
        now split.
    - split; [|exact Hg]. simpl. now apply registry_ok_request_server.
    - split; [|exact Hg]. simpl. now apply registry_ok_player_disconnect. }
  assert (Hall : forall a, J a -> J (run_events cfg env es a)).
  { induction es as [|e es IH]; intros a Ha; simpl; [exact Ha|].
    apply IH. now apply Hstep. }
  destruct (Hall new_app) as (_ & H).
  - split; [split; constructor|]. simpl. lia.
  - exact H.
Qed.

End MetricsFacts.

Lemma post_success_counts_requests_witness :
  let (res, a') := post_servers env_flaky
                     (run_events cfg_default env_flaky sample_events new_app) in
  res = res_status_500 /\
  serverRequests_POST_success (gameServerMetrics a') = 3%nat.
Proof.
  generalize (post_success_counts_requests cfg_default env_flaky sample_events).
  intros (H1 & _ & H3).
  specialize (H3 (run_events cfg_default env_flaky sample_events new_app) eq_refl).
  destruct (post_servers env_flaky _) as [res a'].
  destruct H3 as (Hres & Hs & _).
  split; [exact Hres|]. rewrite Hs, H1. reflexivity.
Defined.

Lemma gauges_within_capacity_witness :
  let m := gameServerMetrics (run_events cfg_default env_flaky sample_events new_app) in
  0 <= playerConnections m <= activeServers m * 100.
Proof.
  apply (gauges_within_capacity cfg_default env_flaky sample_events).
  simpl. lia.
Defined.
